(** * Energy analysis with pandas: a shallow embedding of [script.py]

    The script reads one CSV file per house, stacks the tables into a
    three-dimensional pandas Panel (house x time x variable), derives the
    cumulative energy from the power samples, and computes two aggregates:
    the hourly average power and the load-duration distribution.

    Conventions of the embedding.
    - Python exceptions are the constructors of [exn]; a statement that can
      raise returns a [result].
    - Measurements are exact rationals ([Q]): binary64 rounding and missing
      values (NaN) in the measurement columns are left out of the model.
      NaN is modelled where the script itself creates and removes it (the
      outer join of the load-duration table followed by [fillna]).
    - A timestamp is pandas' [Timestamp.value]: nanoseconds since the epoch.
    - Plotting and printing have no effect on the data and are left out. *)

From Stdlib Require Import String Ascii ZArith QArith Qround Lia Bool.
From Stdlib Require Import List Sorted.
Import ListNotations.

(** ** Python exceptions and results *)

Inductive exn : Type :=
| IOError | IndexError | ValueError | KeyError | AttributeError.

Inductive result (A : Type) : Type :=
| Ok (a : A)
| Raise (e : exn).

Arguments Ok {A} a.
Arguments Raise {A} e.

Definition bind {A B : Type} (r : result A) (k : A -> result B) : result B :=
  match r with
  | Ok a => k a
  | Raise e => Raise e
  end.

Notation "x <- r ;; k" := (bind r (fun x => k))
  (at level 61, r at next level, right associativity).

(** Python 2 [map] is eager: the first call that raises aborts the map. *)
Fixpoint mapM {A B : Type} (f : A -> result B) (l : list A) : result (list B) :=
  match l with
  | [] => Ok []
  | a :: l' => b <- f a ;; bs <- mapM f l' ;; Ok (b :: bs)
  end.

Definition is_ok {A : Type} (r : result A) : bool :=
  match r with Ok _ => true | Raise _ => false end.

(** ** Strings and paths: [os.path.join], [os.path.split], [str.split] *)

Module Path.
Local Open Scope string_scope.

Fixpoint contains (c : ascii) (s : string) : bool :=
  match s with
  | EmptyString => false
  | String a r => Ascii.eqb a c || contains c r
  end.

(** [s.rfind(c)]: position of the last [c], [-1] when there is none. *)
Fixpoint rfind (c : ascii) (s : string) : Z :=
  match s with
  | EmptyString => (-1)%Z
  | String a r =>
      let i := rfind c r in
      if (0 <=? i)%Z then (i + 1)%Z
      else if Ascii.eqb a c then 0%Z else (-1)%Z
  end.

Fixpoint drop (n : nat) (s : string) : string :=
  match n, s with
  | O, _ => s
  | S _, EmptyString => EmptyString
  | S k, String _ r => drop k r
  end.

Fixpoint take (n : nat) (s : string) : string :=
  match n, s with
  | O, _ => EmptyString
  | S _, EmptyString => EmptyString
  | S k, String a r => String a (take k r)
  end.

Fixpoint all_char (c : ascii) (s : string) : bool :=
  match s with
  | EmptyString => true
  | String a r => Ascii.eqb a c && all_char c r
  end.

(** [s.rstrip(c)] *)
Fixpoint rstrip (c : ascii) (s : string) : string :=
  match s with
  | EmptyString => EmptyString
  | String a r => if all_char c s then EmptyString else String a (rstrip c r)
  end.

Definition startswith (p s : string) : bool := prefix p s.

Fixpoint endswith_char (c : ascii) (s : string) : bool :=
  match s with
  | EmptyString => false
  | String a EmptyString => Ascii.eqb a c
  | String _ r => endswith_char c r
  end.

(** posixpath.join(a, b) *)
Definition os_path_join (a b : string) : string :=
  if startswith "/" b then b
  else if (String.eqb a "" || endswith_char "/" a)%bool then a ++ b
  else a ++ "/" ++ b.

(** posixpath.split(p): [(head, tail)], [tail] is what follows the last
    slash. *)
Definition os_path_split (p : string) : string * string :=
  let i := Z.to_nat (rfind "/" p + 1) in
  let head := take i p in
  let tail := drop i p in
  (if negb (String.eqb head "") && negb (all_char "/" head)
   then rstrip "/" head else head, tail).

(** [s.split(sep)] for a non-empty separator: pieces between the
    non-overlapping occurrences of [sep], scanned from the left.  [skip]
    counts the characters of a matched separator still to be passed over and
    [cur] is the piece being read. *)
Fixpoint split_go (sep : string) (skip : nat) (cur : string) (s : string)
  : list string :=
  match s with
  | EmptyString => [cur]
  | String a r =>
      match skip with
      | S k => split_go sep k cur r
      | O =>
          if prefix sep s
          then cur :: split_go sep (String.length sep - 1) "" r
          else split_go sep 0 (cur ++ String a "") r
      end
  end.

Definition str_split (sep s : string) : list string := split_go sep 0 "" s.

(** [sep] occurs somewhere in [s]. *)
Fixpoint occurs (sep s : string) : bool :=
  match s with
  | EmptyString => prefix sep ""
  | String _ r => prefix sep s || occurs sep r
  end.

End Path.

(** Line 51: [os.path.split(x)[-1].split('.csv')[0]]. *)
Definition house_name (x : string) : string :=
  hd EmptyString (Path.str_split ".csv" (snd (Path.os_path_split x))).

(** ** pandas data model *)

(** An index label of the time axis: a parsed [Timestamp] (its [value], in
    nanoseconds since the epoch) or, when [read_csv] could not parse the
    column as dates, the text of the field as read. *)
Inductive label : Type :=
| Timestamp (value : Z)
| Text (s : string).

(** [Timestamp.hour] *)
Definition hour (value : Z) : Z := (value / 3600000000000) mod 24.

(** [lambda x : x.hour]: a [str] has no attribute [hour]. *)
Definition label_hour (l : label) : result Z :=
  match l with
  | Timestamp v => Ok (hour v)
  | Text _ => Raise AttributeError
  end.

(** A DataFrame, stored by columns: [cols] has one list per entry of
    [columns], each with one cell per entry of [index]. *)
Record Frame (L V : Type) : Type := mkFrame {
  index : list L;
  columns : list string;
  cols : list (list V)
}.

Arguments mkFrame {L V} index columns cols.
Arguments index {L V} f.
Arguments columns {L V} f.
Arguments cols {L V} f.

Definition DataFrame : Type := Frame label Q.

Record Series (L V : Type) : Type := mkSeries {
  sname : string;
  sindex : list L;
  svalues : list V
}.

Arguments mkSeries {L V} sname sindex svalues.
Arguments sname {L V} s.
Arguments sindex {L V} s.
Arguments svalues {L V} s.

(** A two-dimensional numpy array, row-major, with its shape. *)
Record ndarray2 : Type := mkArray {
  shape : nat * nat;
  data : list (list Q)
}.

(** [df.values] *)
Definition values (df : DataFrame) : ndarray2 :=
  {| shape := (length (index df), length (columns df));
     data := map (fun t => map (fun c => nth t c 0%Q) (cols df))
                 (seq 0 (length (index df))) |}.

(** The Panel: [pvalues] is indexed by item, then major axis, then minor
    axis. *)
Record Panel : Type := mkPanel {
  items : list string;
  major_axis : list label;
  minor_axis : list string;
  pvalues : list (list (list Q))
}.

(** The shape invariant kept by pandas' block manager. *)
Definition wf_panel (p : Panel) : bool :=
  (length (pvalues p) =? length (items p))%nat
  && forallb (fun m =>
       (length m =? length (major_axis p))%nat
       && forallb (fun r => (length r =? length (minor_axis p))%nat) m)
     (pvalues p).

Definition same_shape (a b : ndarray2) : bool :=
  (fst (shape a) =? fst (shape b))%nat && (snd (shape a) =? snd (shape b))%nat.

(** [pd.Panel(data, items=..., major_axis=..., minor_axis=...)] for a list
    of 2-D arrays.  [np.asarray] gives a 3-D array only when the list is not
    empty and all arrays have one shape; otherwise the constructor raises
    [ValueError], as it does when an axis does not have the length of its
    dimension. *)
Definition pd_Panel (arrays : list ndarray2) (its : list string)
    (major : list label) (minor : list string) : result Panel :=
  match arrays with
  | [] => Raise ValueError
  | a :: rest =>
      if forallb (same_shape a) rest then
        if (length arrays =? length its)%nat
           && (fst (shape a) =? length major)%nat
           && (snd (shape a) =? length minor)%nat
        then Ok (mkPanel its major minor (map data arrays))
        else Raise ValueError
      else Raise ValueError
  end.

(** [Index.get_loc] on an axis of distinct labels. *)
Fixpoint get_loc (key : string) (axis : list string) : result nat :=
  match axis with
  | [] => Raise KeyError
  | a :: rest =>
      if String.eqb a key then Ok O
      else k <- get_loc key rest ;; Ok (S k)
  end.

(** [pnl.ix[:, :, v]]: a DataFrame over the major axis with one column per
    item. *)
Definition ix_minor (p : Panel) (v : string) : result DataFrame :=
  k <- get_loc v (minor_axis p) ;;
  Ok (mkFrame (major_axis p) (items p)
        (map (fun m => map (fun r => nth k r 0%Q) m) (pvalues p))).

(** [pnl.ix[n, :, v]]: a Series over the major axis. *)
Definition ix_item_minor (p : Panel) (n v : string)
  : result (Series label Q) :=
  i <- get_loc n (items p) ;;
  k <- get_loc v (minor_axis p) ;;
  Ok (mkSeries v (major_axis p)
        (map (fun r => nth k r 0%Q) (nth i (pvalues p) []))).

Fixpoint zip_with {A B C : Type} (f : A -> B -> C) (l : list A) (l' : list B)
  : list C :=
  match l, l' with
  | a :: t, b :: t' => f a b :: zip_with f t t'
  | _, _ => []
  end.

Fixpoint set_nth {A : Type} (k : nat) (x : A) (l : list A) : list A :=
  match l, k with
  | [], _ => []
  | _ :: t, O => x :: t
  | a :: t, S k' => a :: set_nth k' x t
  end.

(** [pnl.ix[:, :, v] = df] for a frame that carries the panel's own major
    axis and items (label alignment is then the identity).  An existing
    label is written in place; a new one enlarges the minor axis at its
    end. *)
Definition ix_set_minor (p : Panel) (v : string) (df : DataFrame) : Panel :=
  match get_loc v (minor_axis p) with
  | Ok k =>
      mkPanel (items p) (major_axis p) (minor_axis p)
        (zip_with (fun m c => zip_with (fun r x => set_nth k x r) m c)
           (pvalues p) (cols df))
  | Raise _ =>
      mkPanel (items p) (major_axis p) (minor_axis p ++ [v])
        (zip_with (fun m c => zip_with (fun r x => r ++ [x]) m c)
           (pvalues p) (cols df))
  end.

(** ** Element-wise arithmetic, [np.cumsum] and [DataFrame.apply] *)

Definition frame_map {L V W : Type} (f : V -> W) (df : Frame L V) : Frame L W :=
  mkFrame (index df) (columns df) (map (map f) (cols df)).

(** [df * c] *)
Definition mul_scalar {L : Type} (df : Frame L Q) (c : Q) : Frame L Q :=
  frame_map (fun x => x * c) df.

(** The running total kept by [np.cumsum] after its first element. *)
Fixpoint cumsum_from (acc : Q) (xs : list Q) : list Q :=
  match xs with
  | [] => []
  | x :: r => let acc' := acc + x in acc' :: cumsum_from acc' r
  end.

Definition np_cumsum (xs : list Q) : list Q :=
  match xs with
  | [] => []
  | x :: r => x :: cumsum_from x r
  end.

(** [df.apply(f)]: [f] on every column. *)
Definition apply {L : Type} (f : list Q -> list Q) (df : Frame L Q) : Frame L Q :=
  mkFrame (index df) (columns df) (map f (cols df)).

(** ** Lines 76-78: the energy in kWh *)

Definition dt : Z := 60 * 2.
Definition J_2_kWh : Q := 1 / 3600 / 1000.

Definition derive_energy (p : Panel) : result Panel :=
  power <- ix_minor p "Power" ;;
  Ok (ix_set_minor p "Energy"
        (mul_scalar (apply np_cumsum (mul_scalar power (inject_Z dt))) J_2_kWh)).

(** ** [groupby] and its aggregations *)

(** Groups are kept sorted by key; every group lists the row positions that
    carry its key, in row order. *)
Fixpoint group_insert (k : Z) (t : nat) (gs : list (Z * list nat))
  : list (Z * list nat) :=
  match gs with
  | [] => [(k, [t])]
  | (k', ts) :: rest =>
      if (k <? k')%Z then (k, [t]) :: gs
      else if (k =? k')%Z then (k', ts ++ [t]) :: rest
      else (k', ts) :: group_insert k t rest
  end.

Definition groupby (keys : list Z) : list (Z * list nat) :=
  fold_left (fun gs kt => group_insert (fst kt) (snd kt) gs)
    (combine keys (seq 0 (length keys))) [].

Definition take_rows (ts : list nat) (col : list Q) : list Q :=
  map (fun t => nth t col 0%Q) ts.

Definition Qsum (xs : list Q) : Q := fold_left Qplus xs 0%Q.

Definition mean (xs : list Q) : Q := Qsum xs / inject_Z (Z.of_nat (length xs)).

Record DataFrameGroupBy : Type := mkGroupBy {
  gb_obj : DataFrame;
  gb_keys : list Z
}.

(** [DataFrameGroupBy.mean()] *)
Definition gb_mean (g : DataFrameGroupBy) : Frame Z Q :=
  let gs := groupby (gb_keys g) in
  mkFrame (map fst gs) (columns (gb_obj g))
    (map (fun c => map (fun grp => mean (take_rows (snd grp) c)) gs)
       (cols (gb_obj g))).

(** [s.groupby(by=[keys]).count()] *)
Definition groupby_count (s : Series label Q) (keys : list Z) : Series Z Z :=
  let gs := groupby keys in
  mkSeries (sname s) (map fst gs)
    (map (fun grp => Z.of_nat (length (take_rows (snd grp) (svalues s)))) gs).

(** ** Line 88: the hourly groups of the power slice *)

Definition agg_hourly_power (p : Panel) : result DataFrameGroupBy :=
  power <- ix_minor p "Power" ;;
  hours <- mapM label_hour (index power) ;;
  Ok (mkGroupBy power hours).

Definition hourly_mean (p : Panel) : result (Frame Z Q) :=
  g <- agg_hourly_power p ;; Ok (gb_mean g).

(** ** Lines 101-106: the load duration curve *)

Definition size_bins : Z := 200.

(** [x // n] for a float [x]: the floor of the quotient. *)
Definition floordiv (x : Q) (n : Z) : Z := Qfloor (x / inject_Z n).

(** [lambda x : size_bins*(x//size_bins)] *)
Definition bin (x : Q) : Z := (size_bins * floordiv x size_bins)%Z.

Definition loads_aggregated (p : Panel) : result (list (Series Z Z)) :=
  mapM (fun n =>
          s <- ix_item_minor p n "Power" ;;
          Ok (groupby_count s (map bin (svalues s))))
       (items p).

Fixpoint insert_sorted (k : Z) (l : list Z) : list Z :=
  match l with
  | [] => [k]
  | a :: r =>
      if (k <? a)%Z then k :: l
      else if (k =? a)%Z then l
      else a :: insert_sorted k r
  end.

(** [Index.union] of two increasing indexes. *)
Definition index_union (a b : list Z) : list Z :=
  fold_left (fun acc k => insert_sorted k acc) b a.

(** The cell of a series at a label, if the label is in its index. *)
Fixpoint lookup (k : Z) (ix : list Z) (vs : list Z) : option Z :=
  match ix, vs with
  | a :: ix', v :: vs' => if (a =? k)%Z then Some v else lookup k ix' vs'
  | _, _ => None
  end.

(** A series laid out on a new index: labels it does not have get NaN
    ([None]), and the integer counts become floats. *)
Definition reindex (ix : list Z) (s : Series Z Z) : list (option Q) :=
  map (fun k => option_map inject_Z (lookup k (sindex s) (svalues s))) ix.

(** [pd.concat(series, axis=1)]: outer join on the index. *)
Definition pd_concat (ss : list (Series Z Z)) : result (Frame Z (option Q)) :=
  match ss with
  | [] => Raise ValueError
  | s :: rest =>
      let ix := fold_left (fun acc s' => index_union acc (sindex s')) rest
                  (sindex s) in
      Ok (mkFrame ix (map sname ss) (map (reindex ix) ss))
  end.

(** [df.columns = names] *)
Definition set_columns {L V : Type} (df : Frame L V) (names : list string)
  : result (Frame L V) :=
  if (length names =? length (cols df))%nat
  then Ok (mkFrame (index df) names (cols df))
  else Raise ValueError.

(** [df.fillna(v)] *)
Definition fillna {L : Type} (v : Q) (df : Frame L (option Q)) : Frame L Q :=
  frame_map (fun c => match c with Some x => x | None => v end) df.

Definition load_duration (p : Panel) : result (Frame Z Q) :=
  la <- loads_aggregated p ;;
  ld <- pd_concat la ;;
  ld' <- set_columns ld (items p) ;;
  Ok (fillna 0 ld').

(** [df.sum()]: one total per column. *)
Definition frame_sum {L : Type} (df : Frame L Q) : list Q :=
  map Qsum (cols df).

(** [df / totals]: every column divided by its own total. *)
Definition div_columns {L : Type} (df : Frame L Q) (totals : list Q)
  : Frame L Q :=
  mkFrame (index df) (columns df)
    (zip_with (fun c s => map (fun x => x / s) c) (cols df) totals).

(** Line 106: [load_duration*100.0/load_duration.sum()] *)
Definition load_duration_percent (p : Panel) : result (Frame Z Q) :=
  ld <- load_duration p ;;
  Ok (div_columns (mul_scalar ld 100) (frame_sum ld)).

(** ** Lines 28-57: loading the files and building the Panel *)

(** What the delimited-table reader finds in a file: the names of the
    columns after the first, and per row the text of the first field with
    the numbers of the others. *)
Record csv : Type := mkCsv {
  header : list string;
  rows : list (string * list Q)
}.

(** The directory listing and, per path, the file's table ([None] when the
    file cannot be read). *)
Record filesystem : Type := mkFs {
  listdir : list string;
  open_csv : string -> option csv
}.

Section Loader.

(** The date parser used by [read_csv]. *)
Variable parse_ts : string -> option Z.
Variable fs : filesystem.
Variable dir_path : string.

Fixpoint parse_all (fields : list string) : option (list Z) :=
  match fields with
  | [] => Some []
  | f :: r =>
      match parse_ts f, parse_all r with
      | Some v, Some vs => Some (v :: vs)
      | _, _ => None
      end
  end.

(** [parse_dates=True] on the index column: the column is converted as a
    whole, and returned unaltered when some field is not a date. *)
Definition parse_index (fields : list string) : list label :=
  match parse_all fields with
  | Some vs => map Timestamp vs
  | None => map Text fields
  end.

(** [pd.read_csv(x, index_col=0, parse_dates=True)] *)
Definition read_csv (x : string) : result DataFrame :=
  match open_csv fs x with
  | None => Raise IOError
  | Some c =>
      Ok (mkFrame (parse_index (map fst (rows c))) (header c)
            (map (fun j => map (fun r => nth j (snd r) 0%Q) (rows c))
               (seq 0 (length (header c)))))
  end.

Definition file_names : list string :=
  map (Path.os_path_join dir_path) (listdir fs).

Definition dfs : result (list DataFrame) := mapM read_csv file_names.

Definition house_names : list string := map house_name file_names.

(** Line 57.  The arguments are evaluated before the call: [dfs[0]] raises
    [IndexError] on an empty list. *)
Definition build_panel (frames : list DataFrame) (names : list string)
  : result Panel :=
  let arrays := map values frames in
  match frames with
  | [] => Raise IndexError
  | d0 :: _ => pd_Panel arrays names (index d0) (columns d0)
  end.

Definition pnl : result Panel :=
  frames <- dfs ;; build_panel frames house_names.

Record outputs : Type := mkOutputs {
  out_pnl : Panel;
  out_hourly : Frame Z Q;
  out_load_duration : Frame Z Q
}.

(** The whole run: the panel at the end of the script and the two
    aggregate tables that are plotted. *)
Definition script : result outputs :=
  p0 <- pnl ;;
  _ <- ix_minor p0 "Power" ;;
  p1 <- derive_energy p0 ;;
  _ <- ix_minor p1 "Energy" ;;
  hourly <- hourly_mean p1 ;;
  ld <- load_duration_percent p1 ;;
  Ok (mkOutputs p1 hourly ld).

End Loader.

(** ** Lines 61-62: [pnl.mean()] and [pnl.max()] *)

(** [np.maximum] of two numbers. *)
Definition np_maximum (a b : Q) : Q := if Qle_bool a b then b else a.

(** The largest entry; NaN ([None]) when there is none. *)
Definition stat_max (xs : list Q) : option Q :=
  match xs with
  | [] => None
  | x :: r => Some (fold_left np_maximum r x)
  end.

(** The sum over the count; NaN ([None]) when there is no entry. *)
Definition stat_mean (xs : list Q) : option Q :=
  match xs with
  | [] => None
  | _ :: _ => Some (mean xs)
  end.

(** A reduction of the Panel along its major axis: a table over the minor
    axis with one column per item. *)
Definition panel_reduce (f : list Q -> option Q) (p : Panel)
  : Frame string (option Q) :=
  mkFrame (minor_axis p) (items p)
    (map (fun m =>
            map (fun k => f (map (fun r => nth k r 0%Q) m))
                (seq 0 (length (minor_axis p))))
         (pvalues p)).

Definition panel_mean (p : Panel) : Frame string (option Q) :=
  panel_reduce stat_mean p.

Definition panel_max (p : Panel) : Frame string (option Q) :=
  panel_reduce stat_max p.

(** [sep.join(pieces)] *)
Fixpoint str_join (sep : string) (pieces : list string) : string :=
  match pieces with
  | [] => EmptyString
  | [x] => x
  | x :: rest => (x ++ sep ++ str_join sep rest)%string
  end.

(** ** Notions used in the statements *)

(** One item of a Panel has a row per time stamp and a cell per variable. *)
Definition rows_ok (p : Panel) (m : list (list Q)) : Prop :=
  length m = length (major_axis p)
  /\ Forall (fun r => length r = length (minor_axis p)) m.

(** A frame has one column of cells per column name. *)
Definition frame_ok (d : DataFrame) : Prop :=
  length (cols d) = length (columns d).

(** A column laid out on the Panel's time axis. *)
Definition col_ok (p : Panel) (c : list Q) : Prop :=
  length c = length (major_axis p).

(** The samples of variable number [k] of house number [i]. *)
Definition series_of (p : Panel) (i k : nat) : list Q :=
  map (fun r => nth k r 0%Q) (nth i (pvalues p) []).

(** What lines 76-78 compute from one column of the power slice. *)
Definition energy_column (power : list Q) : list Q :=
  map (fun x => x * J_2_kWh)
    (np_cumsum (map (fun x => x * inject_Z dt) power)).

(** The frame that line 78 assigns, given the position [k] of the label
    [Power] on the minor axis. *)
Definition energy_frame (p : Panel) (k : nat) : DataFrame :=
  mkFrame (major_axis p) (items p)
    (map (fun m => energy_column (map (fun r => nth k r 0%Q) m)) (pvalues p)).

(** One step of the fold of [groupby]. *)
Definition ins (gs : list (Z * list nat)) (kt : Z * nat)
  : list (Z * list nat) :=
  group_insert (fst kt) (snd kt) gs.

(** The group stored under key [k], if there is one. *)
Fixpoint glookup (k : Z) (gs : list (Z * list nat)) : option (list nat) :=
  match gs with
  | [] => None
  | (k', ts) :: rest => if (k' =? k)%Z then Some ts else glookup k rest
  end.

(** The second components of the pairs whose key is [k], in order. *)
Definition sel {A : Type} (k : Z) (kvs : list (Z * A)) : list A :=
  map snd (filter (fun kv => (fst kv =? k)%Z) kvs).

(** The samples of a column whose row carries the key [k]. *)
Definition samples_at (k : Z) (keys : list Z) (col : list Q) : list Q :=
  sel k (combine keys col).

(** How many samples of a column fall in the bin labelled [k]. *)
Definition count_in_bin (k : Z) (power : list Q) : nat :=
  length (filter (fun x => (bin x =? k)%Z) power).

(** The counts of one house, as line 102 computes them from its power
    samples. *)
Definition house_counts (p : Panel) (i k : nat) : Series Z Z :=
  groupby_count (mkSeries "Power" (major_axis p) (series_of p i k))
    (map bin (series_of p i k)).

(** The position of a label on the items axis. *)
Definition item_loc (p : Panel) (n : string) : nat :=
  match get_loc n (items p) with Ok i => i | Raise _ => O end.

(** ** Sample inputs *)

Module Sample.

(** One house, one power sample, measured at midnight. *)
Definition frame_a : DataFrame :=
  mkFrame [Timestamp 0] ["Power"%string] [[100%Q]].

(** Another house whose only sample is two minutes later. *)
Definition frame_b : DataFrame :=
  mkFrame [Timestamp 120000000000] ["Power"%string] [[50%Q]].

(** A house with two samples. *)
Definition frame_c : DataFrame :=
  mkFrame [Timestamp 0; Timestamp 120000000000] ["Power"%string]
    [[100%Q; 50%Q]].

(** A date parser that knows one date. *)
Definition parse_one (s : string) : option Z :=
  if String.eqb s "2014-01-01 00:00:00" then Some 1388534400000000000%Z
  else None.

(** A directory with one file whose first row does not start with a date. *)
Definition fs_bad_date : filesystem :=
  mkFs ["house1.csv"%string]
    (fun _ => Some (mkCsv ["Power"%string]
                      [("yesterday"%string, [100%Q]);
                       ("2014-01-01 00:00:00"%string, [50%Q])])).

(** Two houses, three samples two minutes apart, power and voltage; the
    second house draws a constant 100 W. *)
Definition pnl0 : Panel :=
  mkPanel ["house1"; "house2"]%string
    [Timestamp 0; Timestamp 120000000000; Timestamp 240000000000]
    ["Power"; "Vrms"]%string
    [[[10; 230]; [20; 231]; [30; 229]];
     [[100; 230]; [100; 230]; [100; 230]]]%Q.

(** One house sampled twice in hour 0 and once in hour 1. *)
Definition pnl_hours : Panel :=
  mkPanel ["house1"%string]
    [Timestamp 0; Timestamp 120000000000; Timestamp 3600000000000]
    ["Power"%string]
    [[[10]; [20]; [30]]]%Q.

(** Two houses whose samples fall in different 200 W bins. *)
Definition pnl_load : Panel :=
  mkPanel ["house1"; "house2"]%string
    [Timestamp 0; Timestamp 120000000000; Timestamp 240000000000]
    ["Power"%string]
    [[[10]; [250]; [-30]]; [[100]; [100]; [450]]]%Q.

(** A Panel without a power variable. *)
Definition pnl_volts : Panel :=
  mkPanel ["house1"%string] [Timestamp 0; Timestamp 120000000000]
    ["Vrms"%string] [[[230]; [231]]]%Q.

(** A Panel whose time index was not parsed. *)
Definition pnl_text : Panel :=
  mkPanel ["house1"%string] [Text "yesterday"; Text "today"]
    ["Power"%string] [[[10]; [20]]]%Q.

(** A directory with one readable file of two dated samples. *)
Definition parse_two (s : string) : option Z :=
  if String.eqb s "2014-01-01 00:00:00" then Some 1388534400000000000%Z
  else if String.eqb s "2014-01-01 00:02:00" then Some 1388534520000000000%Z
  else None.

Definition fs_one : filesystem :=
  mkFs ["house1.csv"%string]
    (fun _ => Some (mkCsv ["Power"; "Vrms"]%string
                      [("2014-01-01 00:00:00"%string, [100%Q; 230%Q]);
                       ("2014-01-01 00:02:00"%string, [250%Q; 231%Q])])).

Definition fs_empty : filesystem := mkFs [] (fun _ => None).

Definition fs_unreadable : filesystem :=
  mkFs ["house1.csv"%string] (fun _ => None).

End Sample.

(** * Properties *)

(** ** Results *)

Lemma bind_ok {A B : Type} (r : result A) (k : A -> result B) (b : B) :
  bind r k = Ok b -> exists a, r = Ok a /\ k a = Ok b.
Proof.
  destruct r as [a|e]; simpl; intros H; [exists a; auto | discriminate].
Qed.

Lemma mapM_all_ok {A B : Type} (f : A -> result B) (g : A -> B) (l : list A) :
  (forall a, In a l -> f a = Ok (g a)) -> mapM f l = Ok (map g l).
Proof.
  induction l as [|a l IH]; simpl; intros H; [reflexivity|].
  rewrite (H a) by auto; simpl. rewrite IH by auto. reflexivity.
Qed.

Lemma mapM_raise {A B : Type} (f : A -> result B) (l : list A) (e : exn) :
  (forall a, In a l -> f a = Raise e \/ exists b, f a = Ok b) ->
  (exists a, In a l /\ f a = Raise e) ->
  mapM f l = Raise e.
Proof.
  induction l as [|a l IH]; simpl; intros Hall [x [Hin Hx]]; [contradiction|].
  destruct (Hall a (or_introl eq_refl)) as [Ha|[b Ha]]; rewrite Ha; simpl; auto.
  destruct Hin as [->|Hin]; [congruence|].
  rewrite IH; eauto.
Qed.

(** ** Paths and house names *)

Section PathFacts.
Local Open Scope string_scope.
Import Path.

Lemma append_empty_r (s : string) : s ++ "" = s.
Proof. induction s; simpl; congruence. Qed.

Lemma append_assoc (a b c : string) : (a ++ b) ++ c = a ++ b ++ c.
Proof. induction a; simpl; congruence. Qed.

Lemma rfind_absent (c : ascii) (s : string) :
  contains c s = false -> rfind c s = (-1)%Z.
Proof.
  induction s as [|a r IH]; simpl; intros H; [reflexivity|].
  apply orb_false_iff in H as [Ha Hr]. rewrite (IH Hr), Ha. reflexivity.
Qed.

Lemma rfind_last (c : ascii) (a name : string) :
  contains c name = false ->
  rfind c (a ++ String c name) = Z.of_nat (String.length a).
Proof.
  intros Hn. induction a as [|x a IH].
  - simpl. rewrite (rfind_absent _ _ Hn), Ascii.eqb_refl. reflexivity.
  - cbn [append rfind String.length]. rewrite IH.
    destruct (0 <=? Z.of_nat (String.length a))%Z eqn:E; [lia|].
    apply Z.leb_gt in E. lia.
Qed.

Lemma length_append (a b : string) :
  String.length (a ++ b) = (String.length a + String.length b)%nat.
Proof. induction a; simpl; auto. Qed.

Lemma drop_append (a b : string) : drop (String.length a) (a ++ b) = b.
Proof. induction a; simpl; auto. Qed.

Lemma endswith_char_inv (c : ascii) (a : string) :
  endswith_char c a = true -> exists a', a = a' ++ String c "".
Proof.
  induction a as [|x r IH]; simpl; [discriminate|].
  destruct r as [|y r'].
  - intros H. apply Ascii.eqb_eq in H. subst. exists "". reflexivity.
  - intros H. destruct (IH H) as [a' Ha']. exists (String x a').
    simpl. rewrite <- Ha'. reflexivity.
Qed.

Lemma tail_after_slash (a name : string) :
  contains "/" name = false ->
  snd (os_path_split (a ++ String "/" name)) = name.
Proof.
  intros Hn. unfold os_path_split. cbn [snd].
  rewrite (rfind_last _ a _ Hn).
  replace (Z.to_nat (Z.of_nat (String.length a) + 1))
    with (String.length (a ++ String "/" "")).
  - replace (a ++ String "/" name) with ((a ++ String "/" "") ++ name)
      by (rewrite append_assoc; reflexivity).
    apply drop_append.
  - rewrite length_append. simpl. lia.
Qed.

Lemma tail_no_slash (name : string) :
  contains "/" name = false -> snd (os_path_split name) = name.
Proof.
  intros Hn. unfold os_path_split. cbn [snd].
  rewrite (rfind_absent _ _ Hn). reflexivity.
Qed.

Lemma prefix_first_differs (c x : ascii) (sep r : string) :
  Ascii.eqb x c = false -> prefix (String c sep) (String x r) = false.
Proof.
  intros H. cbn [prefix]. destruct (ascii_dec c x) as [E|E]; [|reflexivity].
  subst. rewrite Ascii.eqb_refl in H. discriminate.
Qed.

Lemma startswith_slash (name : string) :
  contains "/" name = false -> startswith "/" name = false.
Proof.
  destruct name as [|x r]; [reflexivity|].
  cbn [contains]. intros H. apply orb_false_iff in H as [Hx _].
  apply prefix_first_differs, Hx.
Qed.

(** The part of a joined path after its last slash is the listed name. *)
Lemma tail_of_join (dir name : string) :
  contains "/" name = false ->
  snd (os_path_split (os_path_join dir name)) = name.
Proof.
  intros Hn. unfold os_path_join. rewrite (startswith_slash _ Hn).
  destruct (String.eqb dir "") eqn:Ed.
  - apply String.eqb_eq in Ed. subst. simpl. apply tail_no_slash, Hn.
  - simpl. destruct (endswith_char "/" dir) eqn:Ee.
    + destruct (endswith_char_inv _ _ Ee) as [a' ->].
      rewrite append_assoc. simpl. apply tail_after_slash, Hn.
    + apply (tail_after_slash dir name Hn).
Qed.

Lemma prefix_append (sep rest : string) : prefix sep (sep ++ rest) = true.
Proof.
  induction sep as [|c sep IH]; cbn [append prefix].
  - destruct rest; reflexivity.
  - destruct (ascii_dec c c); [apply IH | contradiction].
Qed.

(** Splitting cuts at the separator that follows a stem in which the
    separator's first character does not occur. *)
Lemma split_go_stem (c : ascii) (sep stem rest cur : string) :
  contains c stem = false ->
  hd "" (split_go (String c sep) 0 cur (stem ++ String c sep ++ rest))
  = cur ++ stem.
Proof.
  revert cur. induction stem as [|x stem IH]; intros cur Hs.
  - cbn [append]. change (String c sep ++ rest) with (String c (sep ++ rest)).
    cbn [split_go].
    change (String c (sep ++ rest)) with (String c sep ++ rest).
    rewrite prefix_append. simpl. symmetry. apply append_empty_r.
  - simpl in Hs. apply orb_false_iff in Hs as [Hx Hs].
    cbn [append split_go].
    rewrite (prefix_first_differs c x sep _ Hx).
    rewrite IH by exact Hs. rewrite append_assoc. reflexivity.
Qed.

(** A string without the separator is its own single piece. *)
Lemma split_go_absent (sep s cur : string) :
  occurs sep s = false -> split_go sep 0 cur s = [cur ++ s].
Proof.
  revert cur. induction s as [|x r IH]; intros cur H.
  - simpl. rewrite append_empty_r. reflexivity.
  - cbn [occurs] in H. apply orb_false_iff in H as [Hp Hr].
    cbn [split_go]. rewrite Hp. rewrite IH by exact Hr.
    rewrite append_assoc. reflexivity.
Qed.

End PathFacts.

(** C8 (amended): the key of a listed file is its base name cut at the first
    occurrence of the text [.csv]: a name without [.csv] is kept whole,
    extension included, and a name [stem.csv...] whose stem has no dot gives
    the stem. *)
Theorem house_name_cuts_at_csv (dir name : string) :
  Path.contains "/" name = false ->
  house_name (Path.os_path_join dir name)
    = hd EmptyString (Path.str_split ".csv" name)
  /\ (Path.occurs ".csv" name = false ->
      house_name (Path.os_path_join dir name) = name)
  /\ (forall stem rest : string,
        name = (stem ++ ".csv" ++ rest)%string ->
        Path.contains "." stem = false ->
        house_name (Path.os_path_join dir name) = stem).
Proof.
  intros Hn. unfold house_name. rewrite (tail_of_join dir name Hn).
  split; [reflexivity|split].
  - intros Ho. unfold Path.str_split.
    rewrite (split_go_absent _ _ _ Ho). reflexivity.
  - intros stem rest -> Hs. unfold Path.str_split.
    apply (split_go_stem "." "csv" stem rest EmptyString Hs).
Qed.

Lemma house_name_cuts_at_csv_witness :
  Path.contains "/" "house1.csv" = false
  /\ house_name (Path.os_path_join "raw_data" "house1.csv") = "house1"%string.
Proof.
  split; [reflexivity|].
  apply (proj2 (proj2 (house_name_cuts_at_csv "raw_data" "house1.csv" eq_refl))
           "house1"%string EmptyString); reflexivity.
Defined.

(** C8, as first stated, fails: an extension other than [.csv] stays in the
    key. *)
Lemma house_name_keeps_txt :
  house_name (Path.os_path_join "raw_data" "house1.txt") = "house1.txt"%string
  /\ house_name (Path.os_path_join "raw_data" "house1.txt") <> "house1"%string.
Proof. split; [reflexivity | discriminate]. Qed.

(** ** Building the Panel *)

Lemma forallb_same_shape_false (d0 : DataFrame) (rest : list DataFrame) :
  (exists d, In d rest /\ length (index d) <> length (index d0)) ->
  forallb (same_shape (values d0)) (map values rest) = false.
Proof.
  intros [d [Hin Hlen]]. induction rest as [|x rest IH]; [contradiction|].
  simpl. destruct Hin as [->|Hin].
  - unfold same_shape at 1. simpl.
    destruct (Nat.eqb_spec (length (index d0)) (length (index d))); [lia|].
    reflexivity.
  - rewrite (IH Hin). apply andb_false_r.
Qed.

(** C2 (amended): the constructor compares shapes only.  When some house's
    time index differs in length from the first one's, it raises
    [ValueError] and no Panel is built; when all tables have the shape of
    the first, the Panel is built on the first table's index and columns,
    whatever the time stamps of the others. *)
Theorem build_panel_compares_shapes
    (d0 : DataFrame) (rest : list DataFrame) (names : list string) :
  length names = S (length rest) ->
  ((exists d d', In d (d0 :: rest) /\ In d' (d0 :: rest)
                 /\ length (index d) <> length (index d')) ->
   build_panel (d0 :: rest) names = Raise ValueError)
  /\ (forallb (same_shape (values d0)) (map values rest) = true ->
      build_panel (d0 :: rest) names
      = Ok (mkPanel names (index d0) (columns d0)
              (map data (map values (d0 :: rest))))).
Proof.
  intros Hlen. unfold build_panel, pd_Panel. cbn [map].
  split.
  - intros [d [d' [Hd [Hd' Hne]]]].
    rewrite (forallb_same_shape_false d0 rest); [reflexivity|].
    destruct (Nat.eq_dec (length (index d)) (length (index d0))) as [E|E].
    + exists d'. split; [|lia].
      destruct Hd' as [<-|Hd']; [lia | exact Hd'].
    + exists d. split; [|exact E].
      destruct Hd as [<-|Hd]; [lia | exact Hd].
  - intros H. rewrite H. cbn [length values shape fst snd].
    rewrite length_map, Hlen, !Nat.eqb_refl. reflexivity.
Qed.

Lemma build_panel_compares_shapes_witness :
  build_panel [Sample.frame_a; Sample.frame_c] ["a"; "c"]%string
    = Raise ValueError
  /\ is_ok (build_panel [Sample.frame_a; Sample.frame_b] ["a"; "b"]%string)
     = true.
Proof.
  split.
  - apply (proj1 (build_panel_compares_shapes Sample.frame_a [Sample.frame_c]
                    ["a"; "c"]%string eq_refl)).
    exists Sample.frame_a, Sample.frame_c.
    split; [left; reflexivity|]. split; [right; left; reflexivity|].
    simpl; lia.
  - rewrite (proj2 (build_panel_compares_shapes Sample.frame_a [Sample.frame_b]
                      ["a"; "b"]%string eq_refl) eq_refl).
    reflexivity.
Defined.

(** C2, as first stated, fails: two houses whose indexes have the same
    length and different time stamps are stacked without an error. *)
Lemma misaligned_values_build :
  index Sample.frame_a <> index Sample.frame_b
  /\ build_panel [Sample.frame_a; Sample.frame_b] ["a"; "b"]%string
     = Ok (mkPanel ["a"; "b"]%string [Timestamp 0] ["Power"%string]
             [[[100%Q]]; [[50%Q]]]).
Proof. split; [discriminate | reflexivity]. Qed.

(** ** Loading the files *)

Section LoaderFacts.

Variable parse_ts : string -> option Z.
Variable fs : filesystem.
Variable dir_path : string.

Lemma parse_all_none (fields : list string) :
  (exists f, In f fields /\ parse_ts f = None) ->
  parse_all parse_ts fields = None.
Proof.
  intros [f [Hin Hf]]. induction fields as [|x r IH]; [contradiction|].
  simpl. destruct Hin as [->|Hin].
  - rewrite Hf. reflexivity.
  - rewrite (IH Hin). destruct (parse_ts x); reflexivity.
Qed.

Lemma read_csv_cases (x : string) :
  read_csv parse_ts fs x = Raise IOError
  \/ exists df, read_csv parse_ts fs x = Ok df.
Proof.
  unfold read_csv. destruct (open_csv fs x); [right; eauto | left; reflexivity].
Qed.

End LoaderFacts.

(** C6 (amended): of the three conditions only an unreadable file makes the
    loader fail, with the reader's [IOError].  An empty directory gives an
    empty list of tables, and the run then stops at the Panel constructor
    with [IndexError].  When all files can be read the loader returns one
    table per file; a first field that is not a date raises nothing: the
    whole index column of that file is kept as text. *)
Theorem loader_failures
    (parse_ts : string -> option Z) (fs : filesystem) (dir_path : string) :
  (listdir fs = [] ->
   dfs parse_ts fs dir_path = Ok []
   /\ pnl parse_ts fs dir_path = Raise IndexError)
  /\ ((exists n, In n (listdir fs)
                 /\ open_csv fs (Path.os_path_join dir_path n) = None) ->
      dfs parse_ts fs dir_path = Raise IOError
      /\ pnl parse_ts fs dir_path = Raise IOError)
  /\ ((forall n, In n (listdir fs) ->
                 open_csv fs (Path.os_path_join dir_path n) <> None) ->
      exists frames, dfs parse_ts fs dir_path = Ok frames
                     /\ length frames = length (listdir fs))
  /\ (forall x c,
        open_csv fs x = Some c ->
        (exists f, In f (map fst (rows c)) /\ parse_ts f = None) ->
        exists df, read_csv parse_ts fs x = Ok df
                   /\ index df = map Text (map fst (rows c))).
Proof.
  repeat split.
  - unfold dfs, file_names. rewrite H. reflexivity.
  - unfold pnl, dfs, file_names. rewrite H. reflexivity.
  - destruct H as [n [Hin Hn]].
    unfold dfs. apply mapM_raise.
    + intros a _. apply read_csv_cases.
    + exists (Path.os_path_join dir_path n). split.
      * unfold file_names. apply in_map, Hin.
      * unfold read_csv. rewrite Hn. reflexivity.
  - destruct H as [n [Hin Hn]].
    assert (E : dfs parse_ts fs dir_path = Raise IOError).
    { unfold dfs. apply mapM_raise.
      - intros a _. apply read_csv_cases.
      - exists (Path.os_path_join dir_path n). split.
        + unfold file_names. apply in_map, Hin.
        + unfold read_csv. rewrite Hn. reflexivity. }
    unfold pnl. rewrite E. reflexivity.
  - intros Hall. unfold dfs, file_names.
    induction (listdir fs) as [|n l IH].
    + exists []. split; reflexivity.
    + destruct IH as [frames [Hf Hl]]; [intros; apply Hall; right; assumption|].
      cbn [map mapM]. unfold read_csv at 1.
      destruct (open_csv fs (Path.os_path_join dir_path n)) as [c|] eqn:E.
      * cbn [bind]. rewrite Hf. cbn [bind]. eexists. split; [reflexivity|].
        simpl. rewrite Hl. reflexivity.
      * exfalso. apply (Hall n (or_introl eq_refl)). exact E.
  - intros x c Hx Hbad. unfold read_csv. rewrite Hx.
    eexists. split; [reflexivity|]. cbn [index]. unfold parse_index.
    rewrite (parse_all_none parse_ts _ Hbad). reflexivity.
Qed.

Lemma loader_failures_witness :
  pnl Sample.parse_one Sample.fs_empty "raw_data" = Raise IndexError
  /\ dfs Sample.parse_one Sample.fs_unreadable "raw_data" = Raise IOError
  /\ (exists frames,
        dfs Sample.parse_one Sample.fs_bad_date "raw_data" = Ok frames
        /\ length frames = 1%nat).
Proof.
  split; [|split].
  - apply (proj1 (loader_failures Sample.parse_one Sample.fs_empty "raw_data")).
    reflexivity.
  - apply (proj1 (proj2 (loader_failures Sample.parse_one Sample.fs_unreadable
                           "raw_data"))).
    exists "house1.csv"%string. split; [left; reflexivity | reflexivity].
  - apply (proj1 (proj2 (proj2 (loader_failures Sample.parse_one
                                  Sample.fs_bad_date "raw_data")))).
    intros n _. discriminate.
Defined.

(** C6, as first stated, fails: a row whose first field is not a date does
    not stop the loader; the table is returned with its index as text. *)
Lemma unparsed_date_loads :
  Sample.parse_one "yesterday" = None
  /\ dfs Sample.parse_one Sample.fs_bad_date "raw_data"
     = Ok [mkFrame [Text "yesterday"; Text "2014-01-01 00:00:00"]
             ["Power"%string] [[100%Q; 50%Q]]].
Proof. split; reflexivity. Qed.

(** ** Lists: positional reads and writes *)

Section ListFacts.

Context {A B : Type}.

Lemma zip_with_length (f : A -> B -> A) (l : list A) (l' : list B) :
  length l = length l' -> length (zip_with f l l') = length l.
Proof.
  revert l'; induction l as [|a l IH]; intros [|b l'] H; simpl in *;
    try reflexivity; try discriminate.
  f_equal. apply IH. lia.
Qed.

(** Reading back, cell by cell, what [zip_with] has written. *)
Lemma map_zip_with_read (R : A -> B -> Prop) (f : A -> B -> A) (g : A -> B)
    (l : list A) (l' : list B) :
  (forall a b, R a b -> g (f a b) = b) ->
  Forall2 R l l' -> map g (zip_with f l l') = l'.
Proof.
  intros Hfg H. induction H as [|a b l l' Hab _ IH]; simpl; [reflexivity|].
  rewrite (Hfg a b Hab), IH. reflexivity.
Qed.

(** A read that the write does not touch. *)
Lemma map_zip_with_keep {C : Type} (R : A -> B -> Prop) (f : A -> B -> A)
    (g : A -> C) (l : list A) (l' : list B) :
  (forall a b, R a b -> g (f a b) = g a) ->
  Forall2 R l l' -> map g (zip_with f l l') = map g l.
Proof.
  intros Hfg H. induction H as [|a b l l' Hab _ IH]; simpl; [reflexivity|].
  rewrite (Hfg a b Hab), IH. reflexivity.
Qed.

(** Writing what is already there. *)
Lemma zip_with_same (R : A -> B -> Prop) (f : A -> B -> A)
    (l : list A) (l' : list B) :
  (forall a b, R a b -> f a b = a) ->
  Forall2 R l l' -> zip_with f l l' = l.
Proof.
  intros Hf H. induction H as [|a b l l' Hab _ IH]; simpl; [reflexivity|].
  rewrite (Hf a b Hab), IH. reflexivity.
Qed.

Lemma Forall2_zip_with (R : A -> B -> Prop) (P : A -> Prop)
    (f : A -> B -> A) (l : list A) (l' : list B) :
  (forall a b, R a b -> P (f a b)) ->
  Forall2 R l l' -> Forall P (zip_with f l l').
Proof.
  intros Hf H. induction H as [|a b l l' Hab _ IH]; simpl; constructor; auto.
Qed.

Lemma Forall2_map_r (R : A -> B -> Prop) (g : A -> B) (l : list A) :
  Forall (fun a => R a (g a)) l -> Forall2 R l (map g l).
Proof. induction 1; simpl; constructor; auto. Qed.

Lemma set_nth_length (k : nat) (x : A) (l : list A) :
  length (set_nth k x l) = length l.
Proof.
  revert k; induction l as [|a l IH]; intros [|k]; simpl; auto.
Qed.

Lemma nth_set_nth_same (k : nat) (x d : A) (l : list A) :
  (k < length l)%nat -> nth k (set_nth k x l) d = x.
Proof.
  revert k; induction l as [|a l IH]; intros [|k] H; simpl in *;
    try lia; auto. apply IH. lia.
Qed.

Lemma nth_set_nth_other (k j : nat) (x d : A) (l : list A) :
  j <> k -> nth j (set_nth k x l) d = nth j l d.
Proof.
  revert k j; induction l as [|a l IH]; intros [|k] [|j] H; simpl;
    try reflexivity; try contradiction. apply IH. lia.
Qed.

Lemma set_nth_nth (k : nat) (d : A) (l : list A) :
  set_nth k (nth k l d) l = l.
Proof.
  revert k; induction l as [|a l IH]; intros [|k]; simpl; try reflexivity.
  f_equal. apply IH.
Qed.

End ListFacts.

(** ** Labels of an axis *)

Lemma get_loc_bound (key : string) (axis : list string) (k : nat) :
  get_loc key axis = Ok k -> (k < length axis)%nat.
Proof.
  revert k; induction axis as [|a r IH]; simpl; intros k H; [discriminate|].
  destruct (String.eqb a key).
  - inversion H. lia.
  - destruct (get_loc key r) as [k'|e]; simpl in H; [|discriminate].
    inversion H. specialize (IH k' eq_refl). lia.
Qed.

Lemma get_loc_app_found (key : string) (axis more : list string) (k : nat) :
  get_loc key axis = Ok k -> get_loc key (axis ++ more) = Ok k.
Proof.
  revert k; induction axis as [|a r IH]; simpl; intros k H; [discriminate|].
  destruct (String.eqb a key); [exact H|].
  destruct (get_loc key r) as [k'|e]; simpl in H; [|discriminate].
  rewrite (IH k' eq_refl). exact H.
Qed.

Lemma get_loc_app_new (key : string) (axis : list string) (e : exn) :
  get_loc key axis = Raise e ->
  get_loc key (axis ++ [key]) = Ok (length axis).
Proof.
  induction axis as [|a r IH]; simpl; intros H.
  - rewrite String.eqb_refl. reflexivity.
  - destruct (String.eqb a key); [discriminate|].
    destruct (get_loc key r); simpl in H; [discriminate|].
    rewrite IH by exact H. reflexivity.
Qed.

Lemma get_loc_app_other (key v : string) (axis : list string) (e : exn) :
  key <> v -> get_loc key axis = Raise e ->
  get_loc key (axis ++ [v]) = Raise e.
Proof.
  intros Hne. induction axis as [|a r IH]; simpl; intros H.
  - destruct (String.eqb_spec v key); [congruence | exact H].
  - destruct (String.eqb a key); [discriminate|].
    destruct (get_loc key r); simpl in H; [discriminate|].
    rewrite IH by exact H. reflexivity.
Qed.

Lemma get_loc_distinct (k1 k2 : string) (axis : list string) (n1 n2 : nat) :
  k1 <> k2 -> get_loc k1 axis = Ok n1 -> get_loc k2 axis = Ok n2 -> n1 <> n2.
Proof.
  intros Hne. revert n1 n2. induction axis as [|a r IH]; simpl;
    intros n1 n2 H1 H2; [discriminate|].
  destruct (String.eqb_spec a k1), (String.eqb_spec a k2); try congruence.
  - destruct (get_loc k2 r); simpl in H2; [|discriminate].
    inversion H1; inversion H2; lia.
  - destruct (get_loc k1 r); simpl in H1; [|discriminate].
    inversion H1; inversion H2; lia.
  - destruct (get_loc k1 r) as [m1|]; simpl in H1; [|discriminate].
    destruct (get_loc k2 r) as [m2|]; simpl in H2; [|discriminate].
    inversion H1; inversion H2. specialize (IH m1 m2 eq_refl eq_refl). lia.
Qed.

(** ** The shape of a Panel *)

Lemma wf_panel_spec (p : Panel) :
  wf_panel p = true <->
  length (pvalues p) = length (items p) /\ Forall (rows_ok p) (pvalues p).
Proof.
  unfold wf_panel, rows_ok. rewrite andb_true_iff, Nat.eqb_eq, forallb_forall.
  rewrite Forall_forall. split; intros [H1 H2]; split; auto; intros m Hm.
  - specialize (H2 m Hm). rewrite andb_true_iff, Nat.eqb_eq, forallb_forall in H2.
    destruct H2 as [Ha Hb]. split; auto. rewrite Forall_forall.
    intros r Hr. apply Nat.eqb_eq, Hb, Hr.
  - destruct (H2 m Hm) as [Ha Hb]. rewrite andb_true_iff, Nat.eqb_eq, forallb_forall.
    split; auto. intros r Hr. rewrite Forall_forall in Hb.
    apply Nat.eqb_eq, Hb, Hr.
Qed.

(** ** Writing and reading a slice of the Panel *)

Lemma Forall2_of_Forall {A B : Type} (P : A -> Prop) (R : B -> Prop)
    (l : list A) (l' : list B) :
  length l = length l' -> Forall P l -> Forall R l' ->
  Forall2 (fun a b => P a /\ R b) l l'.
Proof.
  revert l'; induction l as [|a l IH]; intros [|b l'] Hlen HP HR;
    simpl in Hlen; try discriminate; constructor.
  - inversion HP; inversion HR; auto.
  - inversion HP; inversion HR; subst. apply IH; auto.
Qed.

Lemma item_col_cells (p : Panel) (m : list (list Q)) (c : list Q) :
  rows_ok p m /\ col_ok p c ->
  Forall2 (fun r (_ : Q) => length r = length (minor_axis p)) m c.
Proof.
  intros [[Hm Hr] Hc]. unfold col_ok in Hc.
  assert (Hlen : length m = length c) by congruence.
  clear Hm Hc. revert c Hlen.
  induction Hr as [|r m Hr0 _ IH]; intros [|x c] Hlen; simpl in Hlen;
    try discriminate; constructor; auto.
Qed.

Lemma panel_cols_aligned (p : Panel) (cs : list (list Q)) :
  wf_panel p = true ->
  length cs = length (items p) -> Forall (col_ok p) cs ->
  Forall2 (fun m c => rows_ok p m /\ col_ok p c) (pvalues p) cs.
Proof.
  intros Hwf Hlen Hcs. apply wf_panel_spec in Hwf as [Hl Hm].
  apply Forall2_of_Forall; auto. congruence.
Qed.

(** After [pnl.ix[:, :, v] = df], [pnl.ix[:, :, v]] is [df]. *)
Lemma ix_minor_set_same (p : Panel) (v : string) (df : DataFrame) :
  wf_panel p = true ->
  length (cols df) = length (items p) -> Forall (col_ok p) (cols df) ->
  ix_minor (ix_set_minor p v df) v
  = Ok (mkFrame (major_axis p) (items p) (cols df)).
Proof.
  intros Hwf Hlen Hcs.
  pose proof (panel_cols_aligned p (cols df) Hwf Hlen Hcs) as Hal.
  unfold ix_set_minor. destruct (get_loc v (minor_axis p)) as [k|e] eqn:Ek.
  - unfold ix_minor. cbn [minor_axis major_axis items pvalues].
    rewrite Ek. cbn [bind]. do 2 f_equal.
    apply (map_zip_with_read _ _ _ _ _ (fun m c H => 
             map_zip_with_read _ _ (fun r => nth k r 0%Q) m c
               (fun r x Hr => nth_set_nth_same k x 0%Q r
                  (eq_ind_r (fun n => (k < n)%nat) (get_loc_bound _ _ _ Ek) Hr))
               (item_col_cells p m c H))
           Hal).
  - unfold ix_minor. cbn [minor_axis major_axis items pvalues].
    rewrite (get_loc_app_new _ _ _ Ek). cbn [bind]. do 2 f_equal.
    apply (map_zip_with_read _ _ _ _ _ (fun m c H => 
             map_zip_with_read _ _ (fun r => nth (length (minor_axis p)) r 0%Q)
               m c
               (fun r x Hr => eq_ind _ (fun n => nth n (r ++ [x]) 0%Q = x)
                                (nth_middle r [] x 0%Q) _ Hr)
               (item_col_cells p m c H))
           Hal).
Qed.

(** The assignment leaves every other slice as it was. *)
Lemma ix_minor_set_other (p : Panel) (v v' : string) (df : DataFrame) :
  v' <> v -> wf_panel p = true ->
  length (cols df) = length (items p) -> Forall (col_ok p) (cols df) ->
  ix_minor (ix_set_minor p v df) v' = ix_minor p v'.
Proof.
  intros Hne Hwf Hlen Hcs.
  pose proof (panel_cols_aligned p (cols df) Hwf Hlen Hcs) as Hal.
  unfold ix_set_minor. destruct (get_loc v (minor_axis p)) as [k|e] eqn:Ek.
  - unfold ix_minor. cbn [minor_axis major_axis items pvalues].
    destruct (get_loc v' (minor_axis p)) as [k'|e'] eqn:Ek'; [|reflexivity].
    cbn [bind]. do 2 f_equal.
    pose proof (get_loc_distinct _ _ _ _ _ Hne Ek' Ek) as Hkk.
    apply (map_zip_with_keep _ _ _ _ _ (fun m c H =>
             map_zip_with_keep _ _ (fun r => nth k' r 0%Q) m c
               (fun r x _ => nth_set_nth_other k k' x 0%Q r Hkk)
               (item_col_cells p m c H))
           Hal).
  - unfold ix_minor. cbn [minor_axis major_axis items pvalues].
    destruct (get_loc v' (minor_axis p)) as [k'|e'] eqn:Ek'.
    + rewrite (get_loc_app_found _ _ [v] _ Ek'). cbn [bind]. do 2 f_equal.
      pose proof (get_loc_bound _ _ _ Ek') as Hb.
      apply (map_zip_with_keep _ _ _ _ _ (fun m c H =>
               map_zip_with_keep _ _ (fun r => nth k' r 0%Q) m c
                 (fun r x Hr => app_nth1 r [x] 0%Q
                    (eq_ind_r (fun n => (k' < n)%nat) Hb Hr))
                 (item_col_cells p m c H))
             Hal).
    + rewrite (get_loc_app_other _ _ _ _ Hne Ek'). reflexivity.
Qed.

(** The assignment keeps the shape invariant. *)
Lemma ix_set_minor_wf (p : Panel) (v : string) (df : DataFrame) :
  wf_panel p = true ->
  length (cols df) = length (items p) -> Forall (col_ok p) (cols df) ->
  wf_panel (ix_set_minor p v df) = true.
Proof.
  intros Hwf Hlen Hcs.
  pose proof (panel_cols_aligned p (cols df) Hwf Hlen Hcs) as Hal.
  pose proof (proj1 (proj1 (wf_panel_spec p) Hwf)) as Hl.
  apply wf_panel_spec. unfold ix_set_minor.
  destruct (get_loc v (minor_axis p)) as [k|e];
    cbn [items major_axis minor_axis pvalues];
    (split; [rewrite zip_with_length; congruence|]);
    (eapply Forall2_zip_with; [|exact Hal]);
    intros m c H; pose proof (item_col_cells p m c H) as Hcells;
    destruct H as [[Hm Hr] Hc]; unfold col_ok in Hc;
    unfold rows_ok; cbn [items major_axis minor_axis pvalues];
    (split; [rewrite zip_with_length; congruence|]);
    (eapply Forall2_zip_with; [|exact Hcells]);
    intros r x Hrx; cbv beta in Hrx |- *.
  - rewrite set_nth_length. exact Hrx.
  - rewrite !length_app, Hrx. reflexivity.
Qed.

(** Writing a slice that is already there changes nothing. *)
Lemma ix_set_minor_same (p : Panel) (v : string) (df f : DataFrame) :
  ix_minor p v = Ok f -> cols df = cols f -> ix_set_minor p v df = p.
Proof.
  unfold ix_minor, ix_set_minor. intros H Hc.
  destruct (get_loc v (minor_axis p)) as [k|e]; [|discriminate].
  cbn [bind] in H. inversion H as [Hf]. rewrite Hc, <- Hf. cbn [cols].
  destruct p as [its maj mnr vals]. cbn [items major_axis minor_axis pvalues].
  f_equal.
  apply (zip_with_same (fun m c => c = map (fun r => nth k r 0%Q) m)).
  - intros m c ->.
    apply (zip_with_same (fun r x => x = nth k r 0%Q)).
    + intros r x ->. apply set_nth_nth.
    + apply Forall2_map_r, Forall_forall. reflexivity.
  - apply Forall2_map_r, Forall_forall. reflexivity.
Qed.

(** ** The running sum *)

Lemma Qsum_acc (xs : list Q) (a : Q) : fold_left Qplus xs a == a + Qsum xs.
Proof.
  unfold Qsum. revert a. induction xs as [|x xs IH]; intros a; simpl.
  - ring.
  - rewrite (IH (a + x)), (IH (0 + x)). ring.
Qed.

Lemma Qsum_cons (x : Q) (xs : list Q) : Qsum (x :: xs) == x + Qsum xs.
Proof. unfold Qsum at 1. simpl. rewrite Qsum_acc. ring. Qed.

Lemma Qsum_nil : Qsum [] == 0.
Proof. reflexivity. Qed.

Lemma cumsum_from_length (acc : Q) (xs : list Q) :
  length (cumsum_from acc xs) = length xs.
Proof. revert acc; induction xs; intros; simpl; auto. Qed.

Lemma np_cumsum_length (xs : list Q) : length (np_cumsum xs) = length xs.
Proof. destruct xs; simpl; [|rewrite cumsum_from_length]; reflexivity. Qed.

Lemma cumsum_from_nth (xs : list Q) (acc : Q) (t : nat) :
  (t < length xs)%nat ->
  nth t (cumsum_from acc xs) 0 == acc + Qsum (firstn (S t) xs).
Proof.
  revert acc t. induction xs as [|x xs IH]; intros acc t H; simpl in H; [lia|].
  destruct t as [|t].
  - cbn [cumsum_from nth firstn]. rewrite Qsum_cons, Qsum_nil. ring.
  - cbn [cumsum_from nth]. rewrite IH by lia.
    change (firstn (S (S t)) (x :: xs)) with (x :: firstn (S t) xs).
    rewrite Qsum_cons. ring.
Qed.

(** [np.cumsum] at position [t] is the sum of the first [t+1] entries. *)
Lemma np_cumsum_nth (xs : list Q) (t : nat) :
  (t < length xs)%nat -> nth t (np_cumsum xs) 0 == Qsum (firstn (S t) xs).
Proof.
  destruct xs as [|x xs]; simpl length; intros H; [lia|].
  destruct t as [|t].
  - cbn [np_cumsum nth firstn]. rewrite Qsum_cons, Qsum_nil. ring.
  - cbn [np_cumsum nth]. rewrite cumsum_from_nth by lia.
    change (firstn (S (S t)) (x :: xs)) with (x :: firstn (S t) xs).
    rewrite Qsum_cons. reflexivity.
Qed.

Lemma Qsum_constant (c : Q) (l : list Q) :
  Forall (fun x => x == c) l ->
  Qsum l == inject_Z (Z.of_nat (length l)) * c.
Proof.
  induction 1 as [|x l Hx _ IH].
  - rewrite Qsum_nil. simpl. ring.
  - cbv beta in Hx. cbn [length]. rewrite Qsum_cons, IH, Hx.
    rewrite Nat2Z.inj_succ. unfold Z.succ. rewrite inject_Z_plus. ring.
Qed.

Lemma energy_column_length (power : list Q) :
  length (energy_column power) = length power.
Proof.
  unfold energy_column. rewrite length_map, np_cumsum_length, length_map.
  reflexivity.
Qed.

Lemma energy_column_nth (power : list Q) (t : nat) :
  (t < length power)%nat ->
  nth t (energy_column power) 0
  == Qsum (firstn (S t) (map (fun x => x * inject_Z dt) power)) * J_2_kWh.
Proof.
  intros H. unfold energy_column.
  rewrite (nth_indep _ 0 (0 * J_2_kWh))
    by (rewrite length_map, np_cumsum_length, length_map; exact H).
  rewrite (map_nth (fun x => x * J_2_kWh)).
  rewrite np_cumsum_nth by (rewrite length_map; exact H).
  reflexivity.
Qed.

Lemma energy_column_first (power : list Q) :
  nth 0 (energy_column power) 0 == nth 0 power 0 * inject_Z dt * J_2_kWh.
Proof.
  destruct power as [|x r]; simpl; [ring | reflexivity].
Qed.

Lemma energy_column_constant (power : list Q) (P : Q) (t : nat) :
  (forall u, (u < length power)%nat -> nth u power 0 == P) ->
  (t < length power)%nat ->
  nth t (energy_column power) 0
  == inject_Z (Z.of_nat (S t)) * (P * inject_Z dt * J_2_kWh).
Proof.
  intros HP Ht. rewrite energy_column_nth by exact Ht.
  rewrite (Qsum_constant (P * inject_Z dt)).
  - rewrite firstn_length_le by (rewrite length_map; lia). ring.
  - apply Forall_forall. intros y Hy.
    apply (In_nth _ _ 0) in Hy as [u [Hu <-]].
    rewrite length_firstn, length_map in Hu.
    rewrite nth_firstn.
    destruct (Nat.ltb_spec u (S t)); [|lia].
    rewrite (nth_indep _ 0 (0 * inject_Z dt)) by (rewrite length_map; lia).
    rewrite (map_nth (fun x => x * inject_Z dt)).
    rewrite HP by lia. reflexivity.
Qed.

(** ** The energy derivation *)

Lemma derive_energy_eq (p : Panel) (k : nat) :
  get_loc "Power" (minor_axis p) = Ok k ->
  derive_energy p = Ok (ix_set_minor p "Energy" (energy_frame p k)).
Proof.
  intros Hk. unfold derive_energy, ix_minor. rewrite Hk. cbn [bind].
  do 2 f_equal. unfold mul_scalar, apply, frame_map, energy_frame.
  cbn [index columns cols]. f_equal. rewrite !map_map. reflexivity.
Qed.

Lemma derive_energy_raises (p : Panel) (e : exn) :
  get_loc "Power" (minor_axis p) = Raise e -> derive_energy p = Raise e.
Proof.
  intros Hk. unfold derive_energy, ix_minor. rewrite Hk. reflexivity.
Qed.

Lemma energy_frame_shape (p : Panel) (k : nat) :
  wf_panel p = true ->
  length (cols (energy_frame p k)) = length (items p)
  /\ Forall (col_ok p) (cols (energy_frame p k)).
Proof.
  intros Hwf. apply wf_panel_spec in Hwf as [Hl Hm].
  unfold energy_frame. cbn [cols]. split.
  - rewrite length_map. exact Hl.
  - apply Forall_map. eapply Forall_impl; [|exact Hm].
    intros m [Hrows _]. unfold col_ok.
    rewrite energy_column_length, length_map. exact Hrows.
Qed.

Lemma energy_frame_col (p : Panel) (k i : nat) :
  nth i (cols (energy_frame p k)) [] = energy_column (series_of p i k).
Proof.
  unfold energy_frame, series_of. cbn [cols].
  exact (map_nth (fun m => energy_column (map (fun r => nth k r 0) m))
           (pvalues p) [] i).
Qed.

Lemma series_of_length (p : Panel) (i k : nat) :
  wf_panel p = true -> (i < length (items p))%nat ->
  length (series_of p i k) = length (major_axis p).
Proof.
  intros Hwf Hi. apply wf_panel_spec in Hwf as [Hl Hm].
  unfold series_of. rewrite length_map.
  rewrite Forall_forall in Hm.
  apply (Hm (nth i (pvalues p) [])). apply nth_In. lia.
Qed.

(** C1: the derived Energy slice holds, for every house on its own, the
    running sum of power times dt (120 s) times 1/3,600,000: its value at
    time step [t] is the sum of the first [t+1] products.  The first value
    is [power[0] * dt * c], and a constant power [P] gives
    [(t+1) * P * dt * c]. *)
Theorem energy_is_running_sum (p : Panel) (kP : nat) :
  wf_panel p = true ->
  get_loc "Power" (minor_axis p) = Ok kP ->
  exists (p1 : Panel) (energy : DataFrame),
    derive_energy p = Ok p1
    /\ ix_minor p1 "Energy" = Ok energy
    /\ index energy = major_axis p
    /\ columns energy = items p
    /\ length (cols energy) = length (items p)
    /\ forall i, (i < length (items p))%nat ->
         let power := series_of p i kP in
         let e := nth i (cols energy) [] in
         length e = length (major_axis p)
         /\ (forall t, (t < length (major_axis p))%nat ->
               nth t e 0
               == Qsum (firstn (S t) (map (fun x => x * 120) power))
                  * (1 # 3600000))
         /\ nth 0 e 0 == nth 0 power 0 * 120 * (1 # 3600000)
         /\ (forall P : Q,
               (forall u, (u < length (major_axis p))%nat ->
                          nth u power 0 == P) ->
               forall t, (t < length (major_axis p))%nat ->
                 nth t e 0
                 == inject_Z (Z.of_nat (S t)) * (P * 120 * (1 # 3600000))).
Proof.
  intros Hwf Hk.
  destruct (energy_frame_shape p kP Hwf) as [Hlen Hcols].
  exists (ix_set_minor p "Energy" (energy_frame p kP)).
  exists (mkFrame (major_axis p) (items p) (cols (energy_frame p kP))).
  split; [apply derive_energy_eq, Hk|].
  split; [apply ix_minor_set_same; assumption|].
  cbn [index columns cols]. repeat split; try assumption.
  - rewrite energy_frame_col, energy_column_length.
    apply series_of_length; assumption.
  - intros t Ht. rewrite energy_frame_col.
    apply energy_column_nth. rewrite series_of_length; assumption.
  - rewrite energy_frame_col. apply energy_column_first.
  - intros P HP t Ht. rewrite energy_frame_col.
    apply (energy_column_constant (series_of p i kP) P t).
    + intros u Hu. apply HP. rewrite series_of_length in Hu; assumption.
    + rewrite series_of_length; assumption.
Qed.

Lemma energy_is_running_sum_witness :
  exists (p1 : Panel) (energy : DataFrame),
    derive_energy Sample.pnl0 = Ok p1
    /\ ix_minor p1 "Energy" = Ok energy
    /\ nth 2 (nth 1 (cols energy) []) 0 == 3 * (100 * 120 * (1 # 3600000)).
Proof.
  destruct (energy_is_running_sum Sample.pnl0 0 eq_refl eq_refl)
    as [p1 [energy [H1 [H2 [_ [_ [_ H]]]]]]].
  exists p1, energy. split; [exact H1|]. split; [exact H2|].
  destruct (H 1%nat) as [_ [_ [_ Hc]]]; [simpl; lia|].
  apply (Hc 100); [|simpl; lia].
  intros u Hu. destruct u as [|[|[|u]]]; try reflexivity.
  simpl in Hu; lia.
Defined.

(** The example of the specification: 100 W over three samples. *)
Example energy_100W_three_samples :
  Forall2 Qeq (energy_column [100; 100; 100]) [1 # 300; 2 # 300; 1 # 100].
Proof. repeat constructor. Qed.

Lemma get_loc_not_in (key : string) (axis : list string) :
  ~ In key axis -> get_loc key axis = Raise KeyError.
Proof.
  induction axis as [|a r IH]; simpl; intros H; [reflexivity|].
  destruct (String.eqb_spec a key) as [E|E]; [exfalso; auto|].
  rewrite IH by tauto. reflexivity.
Qed.

Lemma derive_energy_inv (p p1 : Panel) :
  derive_energy p = Ok p1 ->
  exists k, get_loc "Power" (minor_axis p) = Ok k
            /\ p1 = ix_set_minor p "Energy" (energy_frame p k).
Proof.
  intros H. destruct (get_loc "Power" (minor_axis p)) as [k|e] eqn:Ek.
  - exists k. split; [reflexivity|].
    rewrite (derive_energy_eq p k Ek) in H. congruence.
  - rewrite (derive_energy_raises p e Ek) in H. discriminate.
Qed.

(** The heart of the second derivation: the power slice is as before, so
    the same columns are written over the Energy slice that holds them. *)
Lemma derive_energy_twice (p p1 : Panel) :
  wf_panel p = true -> derive_energy p = Ok p1 ->
  ix_minor p1 "Power" = ix_minor p "Power"
  /\ (exists k, get_loc "Energy" (minor_axis p1) = Ok k)
  /\ derive_energy p1 = Ok p1.
Proof.
  intros Hwf H. destruct (derive_energy_inv p p1 H) as [k [Hk ->]].
  destruct (energy_frame_shape p k Hwf) as [Hlen Hcols].
  pose proof (ix_minor_set_other p "Energy" "Power" (energy_frame p k)
                ltac:(discriminate) Hwf Hlen Hcols) as Hpow.
  pose proof (ix_minor_set_same p "Energy" (energy_frame p k) Hwf Hlen Hcols)
    as Hen.
  split; [exact Hpow|]. split.
  - unfold ix_minor in Hen.
    destruct (get_loc "Energy"
                (minor_axis (ix_set_minor p "Energy" (energy_frame p k))))
      as [kE|e]; [eauto | discriminate].
  - unfold derive_energy. rewrite Hpow. unfold ix_minor at 1. rewrite Hk.
    cbn [bind]. f_equal.
    apply (ix_set_minor_same _ _ _ _ Hen).
    unfold mul_scalar, apply, frame_map, energy_frame.
    cbn [index columns cols]. rewrite !map_map. reflexivity.
Qed.

(** The Panel is still well formed after the derivation, so what is proved
    of well-formed Panels holds of the Panel that the aggregates read. *)
Lemma derive_energy_wf (p p1 : Panel) :
  wf_panel p = true -> derive_energy p = Ok p1 -> wf_panel p1 = true.
Proof.
  intros Hwf H. destruct (derive_energy_inv p p1 H) as [k [Hk ->]].
  destruct (energy_frame_shape p k Hwf) as [Hlen Hcols].
  apply ix_set_minor_wf; assumption.
Qed.

(** C3 (amended): there is no duplicate guard.  A second run of the energy
    derivation on the same Panel raises nothing, and the Panel after it is
    the Panel after the first run. *)
Theorem second_derivation_keeps_state (p p1 : Panel) :
  wf_panel p = true ->
  derive_energy p = Ok p1 ->
  derive_energy p1 = Ok p1.
Proof.
  intros Hwf H. apply (derive_energy_twice p p1 Hwf H).
Qed.

Lemma second_derivation_keeps_state_witness :
  exists p1, derive_energy Sample.pnl0 = Ok p1 /\ derive_energy p1 = Ok p1.
Proof.
  eexists. split; [reflexivity|].
  apply (second_derivation_keeps_state Sample.pnl0 _ eq_refl eq_refl).
Defined.

(** C3, as first stated, fails: the second call returns a Panel instead of
    raising. *)
Lemma second_derivation_does_not_raise :
  is_ok (p1 <- derive_energy Sample.pnl0 ;; derive_energy p1) = true.
Proof. reflexivity. Qed.

(** C10: running the derivation again reads the unchanged Power slice,
    finds the label Energy on the minor axis, and writes the same values
    over it: nothing is raised and two runs in a row give what one run
    gives. *)
Theorem derive_energy_idempotent (p : Panel) :
  wf_panel p = true ->
  (p1 <- derive_energy p ;; derive_energy p1) = derive_energy p
  /\ forall p1, derive_energy p = Ok p1 ->
       ix_minor p1 "Power" = ix_minor p "Power"
       /\ (exists k, get_loc "Energy" (minor_axis p1) = Ok k)
       /\ exists p2, derive_energy p1 = Ok p2 /\ p2 = p1.
Proof.
  intros Hwf. split.
  - destruct (derive_energy p) as [p1|e] eqn:E; [|reflexivity].
    cbn [bind]. apply (derive_energy_twice p p1 Hwf E).
  - intros p1 E. destruct (derive_energy_twice p p1 Hwf E) as [H1 [H2 H3]].
    split; [exact H1|]. split; [exact H2|]. exists p1. auto.
Qed.

Lemma derive_energy_idempotent_witness :
  (p1 <- derive_energy Sample.pnl0 ;; derive_energy p1)
  = derive_energy Sample.pnl0.
Proof.
  apply (proj1 (derive_energy_idempotent Sample.pnl0 eq_refl)).
Defined.

(** ** The Panel that the script builds is well formed *)

Lemma mapM_Forall {A B : Type} (f : A -> result B) (P : B -> Prop)
    (l : list A) (bs : list B) :
  (forall a b, f a = Ok b -> P b) -> mapM f l = Ok bs -> Forall P bs.
Proof.
  intros Hf. revert bs; induction l as [|a l IH]; simpl; intros bs H.
  - inversion H. constructor.
  - destruct (f a) as [b|e] eqn:Ea; simpl in H; [|discriminate].
    destruct (mapM f l) as [bs'|e]; simpl in H; [|discriminate].
    inversion H; subst. constructor; eauto.
Qed.

Lemma read_csv_frame_ok (parse_ts : string -> option Z) (fs : filesystem)
    (x : string) (d : DataFrame) :
  read_csv parse_ts fs x = Ok d -> frame_ok d.
Proof.
  unfold read_csv, frame_ok. destruct (open_csv fs x); [|discriminate].
  intros H. inversion H. cbn [cols columns].
  rewrite length_map, length_seq. reflexivity.
Qed.

Lemma values_rows_ok (p : Panel) (d : DataFrame) :
  frame_ok d ->
  length (index d) = length (major_axis p) ->
  length (columns d) = length (minor_axis p) ->
  rows_ok p (data (values d)).
Proof.
  intros Hd Hi Hc. unfold rows_ok, values. cbn [data]. split.
  - rewrite length_map, length_seq. exact Hi.
  - apply Forall_map, Forall_forall. intros t _.
    rewrite length_map. unfold frame_ok in Hd. congruence.
Qed.

Lemma values_all_rows_ok (p : Panel) (frames : list DataFrame) :
  Forall (fun d => frame_ok d
                   /\ length (index d) = length (major_axis p)
                   /\ length (columns d) = length (minor_axis p)) frames ->
  Forall (rows_ok p) (map data (map values frames)).
Proof.
  induction 1 as [|d frames [Hd [Hi Hc]] _ IH]; cbn [map]; constructor.
  - apply values_rows_ok; assumption.
  - exact IH.
Qed.

Lemma build_panel_wf (frames : list DataFrame) (names : list string)
    (p : Panel) :
  Forall frame_ok frames ->
  build_panel frames names = Ok p -> wf_panel p = true.
Proof.
  intros Hok H. destruct frames as [|d0 rest]; [discriminate|].
  unfold build_panel, pd_Panel in H. cbn [map] in H.
  destruct (forallb (same_shape (values d0)) (map values rest)) eqn:Hs;
    [|discriminate].
  match type of H with (if ?c then _ else _) = _ => destruct c eqn:Hc end;
    [|discriminate].
  inversion H; subst p; clear H.
  apply andb_true_iff in Hc as [Hc _]. apply andb_true_iff in Hc as [Hc _].
  apply Nat.eqb_eq in Hc.
  apply wf_panel_spec. cbn [pvalues items major_axis minor_axis]. split.
  - rewrite <- Hc. cbn [length map]. rewrite !length_map. reflexivity.
  - apply (values_all_rows_ok
             (mkPanel names (index d0) (columns d0)
                (map data (values d0 :: map values rest)))
             (d0 :: rest)).
    cbn [major_axis minor_axis].
    assert (Hall : Forall (fun d => same_shape (values d0) (values d) = true)
                     (d0 :: rest)).
    { constructor.
      - unfold same_shape. rewrite !Nat.eqb_refl. reflexivity.
      - apply Forall_forall. intros d Hd.
        rewrite forallb_forall in Hs. apply Hs, in_map, Hd. }
    rewrite Forall_forall in Hall, Hok. apply Forall_forall. intros d Hd.
    specialize (Hall d Hd). unfold same_shape in Hall.
    cbn [values shape fst snd] in Hall.
    apply andb_true_iff in Hall as [H1 H2].
    apply Nat.eqb_eq in H1, H2. auto.
Qed.

Lemma pnl_wf (parse_ts : string -> option Z) (fs : filesystem)
    (dir_path : string) (p : Panel) :
  pnl parse_ts fs dir_path = Ok p -> wf_panel p = true.
Proof.
  unfold pnl. intros H. apply bind_ok in H as [frames [Hf Hb]].
  apply (build_panel_wf frames (house_names fs dir_path) p); [|exact Hb].
  apply (mapM_Forall (read_csv parse_ts fs) frame_ok
           (file_names fs dir_path) frames
           (read_csv_frame_ok parse_ts fs) Hf).
Qed.

(** ** The frame of the energy derivation *)

Lemma ix_set_minor_axes (p : Panel) (v : string) (df : DataFrame) :
  items (ix_set_minor p v df) = items p
  /\ major_axis (ix_set_minor p v df) = major_axis p
  /\ (forall w, In w (minor_axis p) -> In w (minor_axis (ix_set_minor p v df)))
  /\ (~ In v (minor_axis p) ->
      minor_axis (ix_set_minor p v df) = minor_axis p ++ [v]).
Proof.
  unfold ix_set_minor.
  destruct (get_loc v (minor_axis p)) as [k|e] eqn:Ek;
    cbn [items major_axis minor_axis]; repeat split; auto.
  - intros Hn. rewrite (get_loc_not_in _ _ Hn) in Ek. discriminate.
  - intros w Hw. apply in_or_app. auto.
Qed.

Lemma derive_energy_frame (p p1 : Panel) :
  wf_panel p = true -> derive_energy p = Ok p1 ->
  items p1 = items p
  /\ major_axis p1 = major_axis p
  /\ (forall v, v <> "Energy"%string -> ix_minor p1 v = ix_minor p v)
  /\ (~ In "Energy"%string (minor_axis p) ->
      minor_axis p1 = minor_axis p ++ ["Energy"%string]
      /\ forall v, In v (minor_axis p) -> ix_minor p1 v = ix_minor p v).
Proof.
  intros Hwf H. destruct (derive_energy_inv p p1 H) as [k [Hk ->]].
  destruct (energy_frame_shape p k Hwf) as [Hlen Hcols].
  destruct (ix_set_minor_axes p "Energy" (energy_frame p k))
    as [Hi [Hm [_ Hnew]]].
  split; [exact Hi|]. split; [exact Hm|]. split.
  - intros v Hv. apply ix_minor_set_other; assumption.
  - intros Hn. split; [apply Hnew, Hn|].
    intros v Hv. apply ix_minor_set_other; try assumption.
    intros ->. contradiction.
Qed.

Lemma script_inv (parse_ts : string -> option Z) (fs : filesystem)
    (dir_path : string) (o : outputs) :
  script parse_ts fs dir_path = Ok o ->
  exists p0, pnl parse_ts fs dir_path = Ok p0
             /\ derive_energy p0 = Ok (out_pnl o).
Proof.
  unfold script. intros H.
  apply bind_ok in H as [p0 [H0 H]]. exists p0. split; [exact H0|].
  apply bind_ok in H as [_ [_ H]].
  apply bind_ok in H as [p1 [H1 H]].
  apply bind_ok in H as [_ [_ H]].
  apply bind_ok in H as [hourly [_ H]].
  apply bind_ok in H as [ld [_ H]].
  inversion H. exact H1.
Qed.

(** The aggregates of a run are computed on a well-formed Panel. *)
Lemma script_panel_wf (parse_ts : string -> option Z) (fs : filesystem)
    (dir_path : string) (o : outputs) :
  script parse_ts fs dir_path = Ok o -> wf_panel (out_pnl o) = true.
Proof.
  intros H. destruct (script_inv _ _ _ _ H) as [p0 [H0 H1]].
  apply (derive_energy_wf p0 (out_pnl o) (pnl_wf _ _ _ _ H0) H1).
Qed.

(** C7: the Panel at the end of a run is the constructed Panel after the
    energy derivation and nothing else; the derivation keeps the items and
    the time index, and every slice other than Energy reads as before, so
    that on a Panel without an Energy variable all the variables it had
    (Power, Vrms, Irms, ...) are unchanged and Energy is added at the end of
    the minor axis. *)
Theorem energy_is_the_only_write
    (parse_ts : string -> option Z) (fs : filesystem) (dir_path : string)
    (o : outputs) :
  script parse_ts fs dir_path = Ok o ->
  exists p0,
    pnl parse_ts fs dir_path = Ok p0
    /\ derive_energy p0 = Ok (out_pnl o)
    /\ items (out_pnl o) = items p0
    /\ major_axis (out_pnl o) = major_axis p0
    /\ (forall v, v <> "Energy"%string ->
                  ix_minor (out_pnl o) v = ix_minor p0 v)
    /\ (~ In "Energy"%string (minor_axis p0) ->
        minor_axis (out_pnl o) = minor_axis p0 ++ ["Energy"%string]
        /\ forall v, In v (minor_axis p0) ->
                     ix_minor (out_pnl o) v = ix_minor p0 v).
Proof.
  intros H. destruct (script_inv _ _ _ _ H) as [p0 [H0 H1]].
  exists p0. split; [exact H0|]. split; [exact H1|].
  apply (derive_energy_frame p0 (out_pnl o) (pnl_wf _ _ _ _ H0) H1).
Qed.

Lemma energy_is_the_only_write_witness :
  exists o p0,
    script Sample.parse_two Sample.fs_one "raw_data" = Ok o
    /\ pnl Sample.parse_two Sample.fs_one "raw_data" = Ok p0
    /\ ix_minor (out_pnl o) "Vrms" = ix_minor p0 "Vrms".
Proof.
  destruct (script Sample.parse_two Sample.fs_one "raw_data") as [o|e] eqn:E;
    [|vm_compute in E; discriminate].
  destruct (energy_is_the_only_write _ _ _ o E) as [p0 [H0 [_ [_ [_ [Hv _]]]]]].
  exists o, p0. split; [reflexivity|]. split; [exact H0|].
  apply Hv. discriminate.
Defined.

(** ** Groups *)

Lemma group_insert_keys (k : Z) (t : nat) (gs : list (Z * list nat)) (x : Z) :
  In x (map fst (group_insert k t gs)) <-> x = k \/ In x (map fst gs).
Proof.
  induction gs as [|[k' ts] rest IH]; simpl.
  - intuition.
  - destruct (Z.ltb_spec k k'); [simpl; intuition|].
    destruct (Z.eqb_spec k k'); simpl.
    + subst. intuition.
    + rewrite IH. intuition.
Qed.

Lemma group_insert_sorted (k : Z) (t : nat) (gs : list (Z * list nat)) :
  StronglySorted Z.lt (map fst gs) ->
  StronglySorted Z.lt (map fst (group_insert k t gs)).
Proof.
  induction gs as [|[k' ts] rest IH]; simpl; intros Hs.
  - repeat constructor.
  - inversion Hs as [|a l Hrest Hall]; subst.
    destruct (Z.ltb_spec k k').
    + simpl. constructor; [exact Hs|]. constructor; [assumption|].
      eapply Forall_impl; [|exact Hall]. intros; lia.
    + destruct (Z.eqb_spec k k'); simpl.
      * exact Hs.
      * constructor; [apply IH; exact Hrest|].
        apply Forall_forall. intros x Hx.
        apply group_insert_keys in Hx as [->|Hx]; [lia|].
        rewrite Forall_forall in Hall. apply Hall, Hx.
Qed.

Lemma glookup_absent (k : Z) (gs : list (Z * list nat)) :
  ~ In k (map fst gs) -> glookup k gs = None.
Proof.
  induction gs as [|[k' ts] rest IH]; simpl; intros H; [reflexivity|].
  destruct (Z.eqb_spec k' k); [exfalso; auto | apply IH; tauto].
Qed.

Lemma glookup_present (k : Z) (gs : list (Z * list nat)) :
  In k (map fst gs) <-> exists ts, glookup k gs = Some ts.
Proof.
  induction gs as [|[k' ts] rest IH]; simpl.
  - split; [contradiction | intros [ts H]; discriminate].
  - destruct (Z.eqb_spec k' k).
    + split; eauto.
    + rewrite <- IH. tauto.
Qed.

Lemma glookup_insert (k k0 : Z) (t : nat) (gs : list (Z * list nat)) :
  StronglySorted Z.lt (map fst gs) ->
  glookup k (group_insert k0 t gs)
  = if (k0 =? k)%Z
    then Some (match glookup k gs with Some ts => ts | None => [] end ++ [t])
    else glookup k gs.
Proof.
  induction gs as [|[k' ts] rest IH]; simpl; intros Hs.
  - destruct (Z.eqb_spec k0 k); reflexivity.
  - inversion Hs as [|a l Hrest Hall]; subst.
    destruct (Z.ltb_spec k0 k').
    + simpl. destruct (Z.eqb_spec k0 k); [|reflexivity].
      subst. destruct (Z.eqb_spec k' k); [lia|].
      rewrite glookup_absent; [reflexivity|].
      intros Hin. rewrite Forall_forall in Hall. specialize (Hall _ Hin). lia.
    + destruct (Z.eqb_spec k0 k'); simpl.
      * subst. destruct (Z.eqb_spec k' k); reflexivity.
      * destruct (Z.eqb_spec k' k).
        -- subst. destruct (Z.eqb_spec k0 k); [lia | reflexivity].
        -- apply IH, Hrest.
Qed.

Lemma glookup_member (g : Z * list nat) (gs : list (Z * list nat)) :
  StronglySorted Z.lt (map fst gs) -> In g gs ->
  glookup (fst g) gs = Some (snd g).
Proof.
  induction gs as [|[k' ts] rest IH]; simpl; intros Hs Hin; [contradiction|].
  inversion Hs as [|a l Hrest Hall]; subst.
  destruct Hin as [<-|Hin].
  - simpl. rewrite Z.eqb_refl. reflexivity.
  - destruct (Z.eqb_spec k' (fst g)) as [E|E]; [|apply IH; assumption].
    rewrite Forall_forall in Hall.
    specialize (Hall (fst g) (in_map fst _ _ Hin)). lia.
Qed.

Lemma sel_app {A : Type} (k : Z) (l l' : list (Z * A)) :
  sel k (l ++ l') = sel k l ++ sel k l'.
Proof. unfold sel. rewrite filter_app, map_app. reflexivity. Qed.

Lemma sel_nil_iff {A : Type} (k : Z) (l : list (Z * A)) :
  sel k l = [] <-> ~ In k (map fst l).
Proof.
  unfold sel. induction l as [|[k' a] l IH]; simpl; [tauto|].
  destruct (Z.eqb_spec k' k); simpl.
  - split; [discriminate | intros H; exfalso; auto].
  - rewrite IH. tauto.
Qed.

(** What the fold of [groupby] has built after reading the pairs [kts]. *)
Lemma fold_ins_spec (kts : list (Z * nat)) :
  StronglySorted Z.lt (map fst (fold_left ins kts []))
  /\ forall k, glookup k (fold_left ins kts [])
               = match sel k kts with [] => None | s => Some s end.
Proof.
  induction kts as [|[k0 t0] kts [IHs IHl]] using rev_ind.
  - split; [constructor | reflexivity].
  - rewrite fold_left_app. cbn [fold_left]. unfold ins at 1 3. cbn [fst snd].
    split; [apply group_insert_sorted, IHs|].
    intros k. rewrite (glookup_insert _ _ _ _ IHs), IHl, sel_app.
    assert (Hs : sel k [(k0, t0)] = if (k0 =? k)%Z then [t0] else [])
      by (unfold sel; cbn; destruct (k0 =? k)%Z; reflexivity).
    rewrite Hs. destruct (Z.eqb_spec k0 k).
    + destruct (sel k kts) eqn:E; reflexivity.
    + rewrite app_nil_r. reflexivity.
Qed.

Lemma map_fst_combine {A B : Type} (l : list A) (l' : list B) :
  length l = length l' -> map fst (combine l l') = l.
Proof.
  revert l'; induction l as [|a l IH]; intros [|b l'] H; simpl in *;
    try reflexivity; try discriminate.
  f_equal. apply IH. lia.
Qed.

Lemma groupby_sorted (keys : list Z) :
  StronglySorted Z.lt (map fst (groupby keys)).
Proof. apply (fold_ins_spec (combine keys (seq 0 (length keys)))). Qed.

Lemma groupby_keys (keys : list Z) (k : Z) :
  In k (map fst (groupby keys)) <-> In k keys.
Proof.
  rewrite glookup_present. unfold groupby.
  change (fun gs kt => group_insert (fst kt) (snd kt) gs) with ins.
  destruct (fold_ins_spec (combine keys (seq 0 (length keys)))) as [_ Hl].
  rewrite Hl.
  pose proof (sel_nil_iff k (combine keys (seq 0 (length keys)))) as Hn.
  rewrite map_fst_combine in Hn by (rewrite length_seq; reflexivity).
  destruct (sel k (combine keys (seq 0 (length keys)))) as [|t ts].
  - split; [intros [? H]; discriminate|].
    intros Hin. exfalso. apply (proj1 Hn eq_refl), Hin.
  - split; [|eauto]. intros _.
    destruct (in_dec Z.eq_dec k keys) as [Hin|Hout]; [exact Hin|].
    apply Hn in Hout. discriminate.
Qed.

Lemma groupby_group (keys : list Z) (g : Z * list nat) :
  In g (groupby keys) ->
  snd g = sel (fst g) (combine keys (seq 0 (length keys))).
Proof.
  intros Hin.
  pose proof (glookup_member g _ (groupby_sorted keys) Hin) as H.
  unfold groupby in H.
  change (fun gs kt => group_insert (fst kt) (snd kt) gs) with ins in H.
  destruct (fold_ins_spec (combine keys (seq 0 (length keys)))) as [_ Hl].
  rewrite Hl in H.
  destruct (sel (fst g) (combine keys (seq 0 (length keys))));
    [discriminate | congruence].
Qed.

(** Reading a column at the positions of a key gives the samples of that
    key. *)
Lemma take_rows_sel (k : Z) (keys : list Z) (col pre : list Q) :
  length col = length keys ->
  take_rows (sel k (combine keys (seq (length pre) (length keys))))
    (pre ++ col)
  = samples_at k keys col.
Proof.
  unfold take_rows, samples_at, sel.
  revert col pre. induction keys as [|k' keys IH]; intros [|x col] pre H;
    simpl in H; try discriminate; [reflexivity|].
  cbn [length seq combine filter fst].
  assert (E : pre ++ x :: col = (pre ++ [x]) ++ col)
    by (rewrite <- app_assoc; reflexivity).
  assert (IH' := IH col (pre ++ [x]) ltac:(lia)).
  rewrite length_app in IH'. cbn [length] in IH'.
  rewrite Nat.add_1_r, <- E in IH'.
  destruct (Z.eqb_spec k' k); cbn [map snd].
  - rewrite IH'. f_equal. apply nth_middle.
  - exact IH'.
Qed.

(** ** The hourly average power *)

Lemma hours_of_stamps (stamps : list Z) :
  mapM label_hour (map Timestamp stamps) = Ok (map hour stamps).
Proof.
  induction stamps as [|v l IH]; simpl; [reflexivity|].
  rewrite IH. reflexivity.
Qed.

Lemma hour_range (v : Z) : (0 <= hour v < 24)%Z.
Proof. unfold hour. apply Z.mod_pos_bound. lia. Qed.

Lemma ix_minor_col (p : Panel) (k i : nat) :
  nth i (map (fun m => map (fun r => nth k r 0) m) (pvalues p)) []
  = series_of p i k.
Proof.
  unfold series_of.
  exact (map_nth (fun m => map (fun r => nth k r 0) m) (pvalues p) [] i).
Qed.

(** C5: the rows of the hourly table are the hours of day (0-23) that occur
    among the time stamps, each once and in increasing order, so an hour
    without samples has no row; there is one column per house, and the cell
    of a house at an hour is the mean of the house's power samples whose
    time stamp has that hour, whatever the date. *)
Theorem hourly_mean_by_hour (p : Panel) (kP : nat) (stamps : list Z) :
  wf_panel p = true ->
  get_loc "Power" (minor_axis p) = Ok kP ->
  major_axis p = map Timestamp stamps ->
  exists tbl : Frame Z Q,
    hourly_mean p = Ok tbl
    /\ columns tbl = items p
    /\ length (cols tbl) = length (items p)
    /\ StronglySorted Z.lt (index tbl)
    /\ (forall h, In h (index tbl) <-> In h (map hour stamps))
    /\ (forall h, In h (index tbl) -> (0 <= h < 24)%Z)
    /\ forall i j, (i < length (items p))%nat ->
                   (j < length (index tbl))%nat ->
         let h := nth j (index tbl) 0%Z in
         let samples := samples_at h (map hour stamps) (series_of p i kP) in
         length (nth i (cols tbl) []) = length (index tbl)
         /\ samples <> []
         /\ nth j (nth i (cols tbl) []) 0 = mean samples.
Proof.
  intros Hwf Hk Hmaj.
  set (hours := map hour stamps).
  set (gs := groupby hours).
  set (cell := fun (c : list Q) (grp : Z * list nat) =>
                 mean (take_rows (snd grp) c)).
  exists (mkFrame (map fst gs) (items p)
            (map (fun c => map (cell c) gs)
               (map (fun m => map (fun r => nth kP r 0) m) (pvalues p)))).
  assert (Hlen : length (pvalues p) = length (items p))
    by (apply wf_panel_spec in Hwf; tauto).
  split.
  { unfold hourly_mean, agg_hourly_power, ix_minor. rewrite Hk. cbn [bind index].
    rewrite Hmaj, hours_of_stamps. reflexivity. }
  cbn [index columns cols].
  split; [reflexivity|].
  split; [rewrite !length_map; exact Hlen|].
  split; [apply groupby_sorted|].
  split; [intros h; apply groupby_keys|].
  split.
  { intros h Hh. apply (proj1 (groupby_keys hours h)) in Hh.
    unfold hours in Hh.
    apply in_map_iff in Hh as [v [<- _]]. apply hour_range. }
  intros i j Hi Hj.
  rewrite length_map in Hj.
  rewrite (nth_indep _ [] (map (cell []) gs)) by (rewrite !length_map; lia).
  rewrite (map_nth (fun c => map (cell c) gs)), ix_minor_col.
  assert (Hcol : length (series_of p i kP) = length hours).
  { rewrite (series_of_length p i kP Hwf Hi), Hmaj. unfold hours.
    rewrite !length_map. reflexivity. }
  assert (Hg : In (nth j gs (0%Z, [])) gs) by (apply nth_In; exact Hj).
  rewrite (map_nth fst gs (0%Z, []) j : nth j (map fst gs) 0%Z = _).
  split; [rewrite !length_map; reflexivity|].
  split.
  - unfold samples_at. intros Hnil. apply sel_nil_iff in Hnil.
    apply Hnil. rewrite map_fst_combine by (symmetry; exact Hcol).
    apply groupby_keys. apply (in_map fst _ _ Hg).
  - rewrite (nth_indep _ 0 (cell (series_of p i kP) (0%Z, [])))
      by (rewrite length_map; exact Hj).
    rewrite (map_nth (cell (series_of p i kP))). unfold cell.
    rewrite (groupby_group hours _ Hg).
    rewrite (take_rows_sel _ hours (series_of p i kP) [] Hcol).
    reflexivity.
Qed.

Lemma hourly_mean_by_hour_witness :
  exists tbl : Frame Z Q,
    hourly_mean Sample.pnl_hours = Ok tbl
    /\ (forall h, In h (index tbl) <-> In h [0; 0; 1]%Z).
Proof.
  destruct (hourly_mean_by_hour Sample.pnl_hours 0
              [0; 120000000000; 3600000000000]%Z eq_refl eq_refl eq_refl)
    as [tbl [H1 [_ [_ [_ [H2 _]]]]]].
  exists tbl. split; [exact H1 | exact H2].
Defined.

(** The example of the specification: samples at hours 0, 0, 1 with powers
    10, 20, 30 give 15 for hour 0 and 30 for hour 1, and no other row. *)
Example hourly_mean_example :
  exists col,
    hourly_mean Sample.pnl_hours
    = Ok (mkFrame [0; 1]%Z ["house1"%string] [col])
    /\ Forall2 Qeq col [15; 30].
Proof. eexists. split; [reflexivity | repeat constructor]. Qed.

(** ** The union of indexes *)

Lemma insert_sorted_In (k x : Z) (l : list Z) :
  In x (insert_sorted k l) <-> x = k \/ In x l.
Proof.
  induction l as [|a r IH]; simpl.
  - intuition.
  - destruct (Z.ltb_spec k a); [simpl; intuition|].
    destruct (Z.eqb_spec k a); simpl.
    + subst. intuition.
    + rewrite IH. intuition.
Qed.

Lemma insert_sorted_sorted (k : Z) (l : list Z) :
  StronglySorted Z.lt l -> StronglySorted Z.lt (insert_sorted k l).
Proof.
  induction l as [|a r IH]; simpl; intros Hs.
  - repeat constructor.
  - inversion Hs as [|a' l' Hrest Hall]; subst.
    destruct (Z.ltb_spec k a).
    + constructor; [exact Hs|]. constructor; [assumption|].
      eapply Forall_impl; [|exact Hall]. intros; lia.
    + destruct (Z.eqb_spec k a); [exact Hs|].
      constructor; [apply IH, Hrest|].
      apply Forall_forall. intros x Hx.
      apply insert_sorted_In in Hx as [->|Hx]; [lia|].
      rewrite Forall_forall in Hall. apply Hall, Hx.
Qed.

Lemma index_union_spec (b a : list Z) :
  StronglySorted Z.lt a ->
  StronglySorted Z.lt (index_union a b)
  /\ forall x, In x (index_union a b) <-> In x a \/ In x b.
Proof.
  unfold index_union. revert a. induction b as [|k b IH]; intros a Hs; simpl.
  - split; [exact Hs | intuition].
  - destruct (IH (insert_sorted k a) (insert_sorted_sorted k a Hs))
      as [H1 H2].
    split; [exact H1|]. intros x. rewrite H2, insert_sorted_In. intuition.
Qed.

Lemma concat_index_spec (rest : list (Series Z Z)) (ix0 : list Z) :
  StronglySorted Z.lt ix0 ->
  let ix := fold_left (fun acc s' => index_union acc (sindex s')) rest ix0 in
  StronglySorted Z.lt ix
  /\ forall x, In x ix <-> In x ix0 \/ exists s, In s rest /\ In x (sindex s).
Proof.
  revert ix0. induction rest as [|s rest IH]; intros ix0 Hs; simpl.
  - split; [exact Hs|]. intros x. split; [auto|].
    intros [H|[s [[] _]]]. exact H.
  - destruct (index_union_spec (sindex s) ix0 Hs) as [H1 H2].
    destruct (IH _ H1) as [H3 H4]. split; [exact H3|].
    intros x. rewrite H4, H2. split.
    + intros [[H|H]|[s' [Hs' Hx]]]; eauto.
    + intros [H|[s' [[<-|Hs'] Hx]]]; eauto.
Qed.

Lemma StronglySorted_lt_NoDup (l : list Z) :
  StronglySorted Z.lt l -> NoDup l.
Proof.
  induction 1 as [|a l _ IH Hall]; constructor; [|exact IH].
  intros Hin. rewrite Forall_forall in Hall. specialize (Hall a Hin). lia.
Qed.

(** ** Counting *)

Lemma lookup_groups {A : Type} (k : Z) (H : list nat -> A) (z : A -> Z)
    (gs : list (Z * list nat)) :
  lookup k (map fst gs) (map (fun g => z (H (snd g))) gs)
  = option_map (fun ts => z (H ts)) (glookup k gs).
Proof.
  induction gs as [|[k' ts] rest IH]; simpl; [reflexivity|].
  destruct (k' =? k)%Z; [reflexivity | exact IH].
Qed.

Lemma sel_length_filter {A : Type} (k : Z) (keys : list Z) (l : list A) :
  length keys = length l ->
  length (sel k (combine keys l))
  = length (filter (fun k' => (k' =? k)%Z) keys).
Proof.
  unfold sel. rewrite length_map.
  revert l; induction keys as [|k' keys IH]; intros [|a l] H; simpl in *;
    try reflexivity; try discriminate.
  destruct (k' =? k)%Z; simpl; rewrite IH by lia; reflexivity.
Qed.

Lemma filter_map_length {A B : Type} (f : B -> bool) (g : A -> B)
    (l : list A) :
  length (filter f (map g l)) = length (filter (fun a => f (g a)) l).
Proof.
  induction l as [|a l IH]; simpl; [reflexivity|].
  destruct (f (g a)); simpl; rewrite IH; reflexivity.
Qed.

Lemma glookup_groupby (k : Z) (keys : list Z) :
  glookup k (groupby keys)
  = match sel k (combine keys (seq 0 (length keys))) with
    | [] => None
    | s => Some s
    end.
Proof.
  unfold groupby.
  change (fun gs kt => group_insert (fst kt) (snd kt) gs) with ins.
  apply (fold_ins_spec (combine keys (seq 0 (length keys)))).
Qed.

Lemma count_in_bin_sel (k : Z) (power : list Q) :
  length (sel k (combine (map bin power)
                   (seq 0 (length (map bin power)))))
  = count_in_bin k power.
Proof.
  rewrite sel_length_filter by (rewrite length_seq; reflexivity).
  unfold count_in_bin. apply filter_map_length.
Qed.

(** A cell of the merged table after [fillna(0)]: the number of samples of
    the house in that bin, zero when it has none. *)
Lemma filled_cell (nm : string) (ix : list label) (power : list Q) (k : Z) :
  let c := groupby_count (mkSeries nm ix power) (map bin power) in
  match option_map inject_Z (lookup k (sindex c) (svalues c)) with
  | Some x => x
  | None => 0
  end = inject_Z (Z.of_nat (count_in_bin k power)).
Proof.
  cbn zeta. unfold groupby_count. cbn [sindex svalues].
  rewrite (lookup_groups k (fun ts => length (take_rows ts power)) Z.of_nat).
  rewrite glookup_groupby. rewrite <- count_in_bin_sel.
  destruct (sel k (combine (map bin power) (seq 0 (length (map bin power)))))
    as [|t ts]; cbn [option_map].
  - reflexivity.
  - unfold take_rows. rewrite length_map. reflexivity.
Qed.

Lemma get_loc_in (key : string) (axis : list string) :
  In key axis -> exists i, get_loc key axis = Ok i.
Proof.
  induction axis as [|a r IH]; simpl; [contradiction|].
  intros H. destruct (String.eqb_spec a key) as [E|E]; [eauto|].
  destruct IH as [i Hi]; [destruct H; [contradiction | assumption]|].
  rewrite Hi. simpl. eauto.
Qed.

Lemma get_loc_nth (axis : list string) (j : nat) (d : string) :
  NoDup axis -> (j < length axis)%nat -> get_loc (nth j axis d) axis = Ok j.
Proof.
  intros Hnd. revert j. induction Hnd as [|a r Hnotin _ IH]; intros j Hj;
    simpl in Hj; [lia|].
  destruct j as [|j]; simpl.
  - rewrite String.eqb_refl. reflexivity.
  - destruct (String.eqb_spec a (nth j r d)) as [E|E].
    + exfalso. apply Hnotin. rewrite E. apply nth_In. lia.
    + rewrite IH by lia. reflexivity.
Qed.

Lemma loads_aggregated_eq (p : Panel) (kP : nat) :
  get_loc "Power" (minor_axis p) = Ok kP ->
  loads_aggregated p
  = Ok (map (fun n => house_counts p (item_loc p n) kP) (items p)).
Proof.
  intros Hk. unfold loads_aggregated. apply mapM_all_ok.
  intros n Hn. destruct (get_loc_in n (items p) Hn) as [i Hi].
  unfold ix_item_minor, item_loc. rewrite Hi, Hk. reflexivity.
Qed.

Lemma house_counts_index (p : Panel) (i kP : nat) :
  StronglySorted Z.lt (sindex (house_counts p i kP))
  /\ forall x, In x (sindex (house_counts p i kP))
               <-> In x (map bin (series_of p i kP)).
Proof.
  unfold house_counts, groupby_count. cbn [sindex]. split.
  - apply groupby_sorted.
  - intros x. apply groupby_keys.
Qed.

Lemma pd_concat_ok (ss : list (Series Z Z)) :
  ss <> [] ->
  Forall (fun s => StronglySorted Z.lt (sindex s)) ss ->
  exists ix : list Z,
    pd_concat ss = Ok (mkFrame ix (map sname ss) (map (reindex ix) ss))
    /\ StronglySorted Z.lt ix
    /\ forall x, In x ix <-> exists s, In s ss /\ In x (sindex s).
Proof.
  destruct ss as [|s0 rest]; [contradiction|]. intros _ Hall.
  inversion Hall as [|s l Hs0 Hrest]; subst.
  destruct (concat_index_spec rest (sindex s0) Hs0) as [Hsorted Hin].
  eexists. split; [reflexivity|]. split; [exact Hsorted|].
  intros x. rewrite Hin. split.
  - intros [H|[s [Hs Hx]]]; [exists s0 | exists s]; simpl; auto.
  - intros [s [[<-|Hs] Hx]]; eauto.
Qed.

Lemma set_columns_ok {L V : Type} (df : Frame L V) (names : list string) :
  length names = length (cols df) ->
  set_columns df names = Ok (mkFrame (index df) names (cols df)).
Proof.
  intros H. unfold set_columns. rewrite H, Nat.eqb_refl. reflexivity.
Qed.

(** The merged, zero-filled table of counts. *)
Lemma load_duration_eq (p : Panel) (kP : nat) :
  get_loc "Power" (minor_axis p) = Ok kP ->
  items p <> [] ->
  exists ix : list Z,
    StronglySorted Z.lt ix
    /\ (forall x, In x ix <->
                  exists n, In n (items p)
                            /\ In x (map bin (series_of p (item_loc p n) kP)))
    /\ load_duration p
       = Ok (mkFrame ix (items p)
               (map (fun n =>
                       map (fun k => inject_Z (Z.of_nat
                              (count_in_bin k (series_of p (item_loc p n) kP))))
                           ix)
                    (items p))).
Proof.
  intros Hk Hne. unfold load_duration.
  rewrite (loads_aggregated_eq p kP Hk). cbn [bind].
  set (G := fun n => house_counts p (item_loc p n) kP).
  destruct (pd_concat_ok (map G (items p))) as [ix [Hc [Hsorted Hin]]].
  { destruct (items p); [contradiction | discriminate]. }
  { apply Forall_map, Forall_forall. intros n _.
    apply (house_counts_index p (item_loc p n) kP). }
  exists ix. split; [exact Hsorted|]. split.
  - intros x. rewrite Hin. split.
    + intros [s [Hs Hx]]. apply in_map_iff in Hs as [n [<- Hn]].
      exists n. split; [exact Hn|].
      apply (house_counts_index p (item_loc p n) kP), Hx.
    + intros [n [Hn Hx]]. exists (G n). split; [apply in_map, Hn|].
      apply (house_counts_index p (item_loc p n) kP), Hx.
  - rewrite Hc. cbn [bind].
    rewrite set_columns_ok by (cbn [cols]; rewrite !length_map; reflexivity).
    cbn [bind]. unfold fillna, frame_map. cbn [index columns cols].
    do 2 f_equal.
    rewrite !map_map. apply map_ext. intros n.
    unfold reindex. rewrite map_map. apply map_ext. intros k.
    apply (filled_cell "Power" (major_axis p)
             (series_of p (item_loc p n) kP) k).
Qed.

(** ** Bin labels *)

Lemma bin_bounds (x : Q) :
  inject_Z (bin x) <= x /\ x < inject_Z (bin x) + 200.
Proof.
  unfold bin, floordiv, size_bins.
  pose proof (Qfloor_le (x / inject_Z 200)) as Hle.
  pose proof (Qlt_floor (x / inject_Z 200)) as Hlt.
  set (f := Qfloor (x / inject_Z 200)) in *.
  assert (Hx : x == 200 * (x / inject_Z 200)) by (field; discriminate).
  rewrite inject_Z_plus in Hlt. rewrite inject_Z_mult.
  set (y := x / inject_Z 200) in *. set (g := inject_Z f) in *.
  change (inject_Z 200) with 200. change (inject_Z 1) with 1 in Hlt.
  split.
  - rewrite Hx. apply Qmult_le_l; [reflexivity | exact Hle].
  - rewrite Hx at 1.
    setoid_replace (200 * g + 200) with (200 * (g + 1)) by ring.
    apply Qmult_lt_l; [reflexivity | exact Hlt].
Qed.

Lemma load_duration_items (p : Panel) (tbl : Frame Z Q) :
  load_duration p = Ok tbl -> items p <> [].
Proof.
  unfold load_duration, loads_aggregated. intros H E. rewrite E in H.
  discriminate.
Qed.

(** C9: the key under which a power sample is grouped is 200 times the
    floor of x/200: a multiple of 200 W, the lower bound of the sample's
    bin (also for negative x), not the integer bin number; every label of
    the bin axis of the merged table is such a key of some sample. *)
Theorem bin_label_is_lower_bound :
  (forall x : Q,
     bin x = (200 * Qfloor (x / 200))%Z
     /\ (200 | bin x)%Z
     /\ inject_Z (bin x) <= x /\ x < inject_Z (bin x) + 200)
  /\ (bin 250 = 200%Z /\ floordiv 250 200 = 1%Z /\ bin (-50) = (-200)%Z)
  /\ (forall (p : Panel) (kP : nat) (tbl : Frame Z Q),
        get_loc "Power" (minor_axis p) = Ok kP ->
        load_duration p = Ok tbl ->
        forall k, In k (index tbl) ->
          (200 | k)%Z
          /\ exists n y, In n (items p)
                         /\ In y (series_of p (item_loc p n) kP)
                         /\ k = bin y).
Proof.
  split; [|split].
  - intros x. split; [reflexivity|]. split.
    + exists (floordiv x size_bins). unfold bin, size_bins. lia.
    + apply bin_bounds.
  - repeat split; reflexivity.
  - intros p kP tbl Hk Hld k Hin.
    destruct (load_duration_eq p kP Hk (load_duration_items p tbl Hld))
      as [ix [_ [Hix Heq]]].
    rewrite Heq in Hld. inversion Hld; subst tbl. cbn [index] in Hin.
    apply Hix in Hin as [n [Hn Hy]].
    apply in_map_iff in Hy as [y [<- Hy]].
    split.
    + exists (floordiv y size_bins). unfold bin, size_bins. lia.
    + exists n, y. auto.
Qed.

Lemma bin_label_is_lower_bound_witness :
  load_duration Sample.pnl_load
  = Ok (mkFrame [-200; 0; 200; 400]%Z ["house1"; "house2"]%string
          [[1; 1; 1; 0]; [0; 2; 0; 1]]%Q)
  /\ forall k, In k [-200; 0; 200; 400]%Z -> (200 | k)%Z.
Proof.
  split; [reflexivity|].
  intros k Hk.
  apply (proj2 (proj2 bin_label_is_lower_bound) Sample.pnl_load 0%nat
           (mkFrame [-200; 0; 200; 400]%Z ["house1"; "house2"]%string
              [[1; 1; 1; 0]; [0; 2; 0; 1]]%Q)
           eq_refl eq_refl k Hk).
Defined.

(** ** The load duration percentages *)

Lemma zip_with_maps {A B C D : Type} (f : B -> C -> D) (g : A -> B)
    (h : A -> C) (l : list A) :
  zip_with f (map g l) (map h l) = map (fun a => f (g a) (h a)) l.
Proof. induction l as [|a l IH]; simpl; [|rewrite IH]; reflexivity. Qed.

Lemma list_sum_map_add {A : Type} (f g : A -> nat) (l : list A) :
  list_sum (map (fun k => f k + g k)%nat l)
  = (list_sum (map f l) + list_sum (map g l))%nat.
Proof. induction l as [|a l IH]; simpl; [|rewrite IH]; lia. Qed.

Lemma indicator_sum (b : Z) (ix : list Z) :
  NoDup ix -> In b ix ->
  list_sum (map (fun k => if (b =? k)%Z then 1 else 0)%nat ix) = 1%nat.
Proof.
  induction 1 as [|a l Hnotin _ IH]; simpl; intros Hin; [contradiction|].
  destruct (Z.eqb_spec b a) as [E|E].
  - subst. f_equal.
    clear IH Hin. induction l as [|c l IHl]; simpl; [reflexivity|].
    destruct (Z.eqb_spec a c) as [E|E]; [exfalso; apply Hnotin; left; auto|].
    apply IHl. intros H. apply Hnotin. right. exact H.
  - apply IH. destruct Hin; [congruence | assumption].
Qed.

(** Every sample is counted in exactly one bin of the axis. *)
Lemma counts_total (ix : list Z) (power : list Q) :
  NoDup ix -> (forall x, In x power -> In (bin x) ix) ->
  list_sum (map (fun k => count_in_bin k power) ix) = length power.
Proof.
  intros Hnd. induction power as [|x power IH]; intros Hall.
  - unfold count_in_bin. simpl. clear Hnd Hall.
    induction ix as [|a l IHl]; simpl; auto.
  - rewrite (map_ext _ (fun k => (if (bin x =? k)%Z then 1 else 0)
                                 + count_in_bin k power)%nat).
    + rewrite list_sum_map_add, indicator_sum, IH; simpl; auto.
      * intros y Hy. apply Hall. right. exact Hy.
      * apply Hall. left. reflexivity.
    + intros k. unfold count_in_bin. simpl.
      destruct (bin x =? k)%Z; reflexivity.
Qed.

Lemma Qsum_of_nats {A : Type} (c : A -> nat) (l : list A) :
  Qsum (map (fun k => inject_Z (Z.of_nat (c k))) l)
  == inject_Z (Z.of_nat (list_sum (map c l))).
Proof.
  induction l as [|a l IH]; simpl map.
  - reflexivity.
  - rewrite Qsum_cons, IH, <- inject_Z_plus, <- Nat2Z.inj_add.
    reflexivity.
Qed.

Lemma Qsum_map_scale {A : Type} (a : A -> Q) (c s : Q) (l : list A) :
  Qsum (map (fun k => a k * c / s) l) == Qsum (map a l) * c / s.
Proof.
  induction l as [|x l IH]; simpl map.
  - rewrite Qsum_nil. unfold Qdiv. ring.
  - rewrite !Qsum_cons, IH. unfold Qdiv. ring.
Qed.

Lemma inject_nat_pos (n : nat) : (0 < n)%nat -> 0 < inject_Z (Z.of_nat n).
Proof.
  intros H. change 0 with (inject_Z 0). rewrite <- Zlt_Qlt. lia.
Qed.

Lemma inject_nat_nonneg (n : nat) : 0 <= inject_Z (Z.of_nat n).
Proof.
  change 0 with (inject_Z 0). rewrite <- Zle_Qle. lia.
Qed.

Lemma item_loc_nth (p : Panel) (i : nat) :
  NoDup (items p) -> (i < length (items p))%nat ->
  item_loc p (nth i (items p) EmptyString) = i.
Proof.
  intros Hnd Hi. unfold item_loc. rewrite get_loc_nth by assumption.
  reflexivity.
Qed.

(** The table that line 106 plots, column by column. *)
Lemma load_duration_percent_eq (p : Panel) (kP : nat) :
  get_loc "Power" (minor_axis p) = Ok kP ->
  items p <> [] ->
  exists ix : list Z,
    StronglySorted Z.lt ix
    /\ (forall x, In x ix <->
                  exists n, In n (items p)
                            /\ In x (map bin (series_of p (item_loc p n) kP)))
    /\ load_duration_percent p
       = Ok (mkFrame ix (items p)
               (map (fun n =>
                       let cnt := fun k => inject_Z (Z.of_nat
                              (count_in_bin k (series_of p (item_loc p n) kP)))
                       in
                       map (fun k => cnt k * 100 / Qsum (map cnt ix)) ix)
                    (items p))).
Proof.
  intros Hk Hne.
  destruct (load_duration_eq p kP Hk Hne) as [ix [Hsorted [Hix Heq]]].
  exists ix. split; [exact Hsorted|]. split; [exact Hix|].
  unfold load_duration_percent. rewrite Heq. cbn [bind].
  unfold div_columns, mul_scalar, frame_map, frame_sum.
  cbn [index columns cols]. do 2 f_equal.
  rewrite !map_map, zip_with_maps. apply map_ext. intros n.
  cbn zeta. rewrite !map_map. reflexivity.
Qed.

(** C4: every power sample is counted in the 200 W bin that holds it; the
    merged table has, for every house, a cell for every bin of the shared
    axis (the union of the houses' bins), equal to the house's count in that
    bin divided by the house's number of samples, times 100, which is 0 for
    a bin where the house has no sample; the cells of a house are
    non-negative and sum to 100. *)
Theorem load_duration_percentages (p : Panel) (kP : nat) :
  wf_panel p = true ->
  get_loc "Power" (minor_axis p) = Ok kP ->
  NoDup (items p) ->
  items p <> [] ->
  major_axis p <> [] ->
  exists tbl : Frame Z Q,
    load_duration_percent p = Ok tbl
    /\ columns tbl = items p
    /\ length (cols tbl) = length (items p)
    /\ StronglySorted Z.lt (index tbl)
    /\ (forall k, In k (index tbl) <->
                  exists i x, (i < length (items p))%nat
                              /\ In x (series_of p i kP) /\ k = bin x)
    /\ forall i, (i < length (items p))%nat ->
         let power := series_of p i kP in
         let col := nth i (cols tbl) [] in
         length col = length (index tbl)
         /\ (forall j, (j < length (index tbl))%nat ->
               let k := nth j (index tbl) 0%Z in
               nth j col 0
               == inject_Z (Z.of_nat (count_in_bin k power))
                  / inject_Z (Z.of_nat (length power)) * 100
               /\ 0 <= nth j col 0
               /\ (count_in_bin k power = 0%nat -> nth j col 0 == 0))
         /\ Qsum col == 100.
Proof.
  intros Hwf Hk Hnd Hne Hmaj.
  destruct (load_duration_percent_eq p kP Hk Hne)
    as [ix [Hsorted [Hix Heq]]].
  eexists. split; [exact Heq|]. cbn [index columns cols].
  split; [reflexivity|]. split; [apply length_map|].
  split; [exact Hsorted|]. split.
  { intros k. rewrite Hix. split.
    - intros [n [Hn Hx]]. apply in_map_iff in Hx as [x [<- Hx]].
      apply (In_nth _ _ EmptyString) in Hn as [i [Hi <-]].
      rewrite (item_loc_nth p i Hnd Hi) in Hx. exists i, x. auto.
    - intros [i [x [Hi [Hx ->]]]]. exists (nth i (items p) EmptyString).
      split; [apply nth_In, Hi|].
      rewrite (item_loc_nth p i Hnd Hi). apply in_map, Hx. }
  intros i Hi.
  set (power := series_of p i kP).
  set (cnt := fun k => inject_Z (Z.of_nat (count_in_bin k power))).
  set (total := Qsum (map cnt ix)).
  assert (Hcol : nth i
            (map (fun n =>
                    let cnt := fun k => inject_Z (Z.of_nat
                           (count_in_bin k (series_of p (item_loc p n) kP)))
                    in map (fun k => cnt k * 100 / Qsum (map cnt ix)) ix)
               (items p)) []
          = map (fun k => cnt k * 100 / total) ix).
  { rewrite (nth_indep _ []
               ((fun n =>
                   let cnt := fun k => inject_Z (Z.of_nat
                          (count_in_bin k (series_of p (item_loc p n) kP)))
                   in map (fun k => cnt k * 100 / Qsum (map cnt ix)) ix)
                  EmptyString))
      by (rewrite length_map; exact Hi).
    rewrite (map_nth (fun n =>
                   let cnt := fun k => inject_Z (Z.of_nat
                          (count_in_bin k (series_of p (item_loc p n) kP)))
                   in map (fun k => cnt k * 100 / Qsum (map cnt ix)) ix)).
    cbn zeta. rewrite (item_loc_nth p i Hnd Hi). reflexivity. }
  cbn zeta in Hcol |- *. rewrite Hcol. clear Hcol.
  assert (Hlen : (0 < length power)%nat).
  { unfold power. rewrite (series_of_length p i kP Hwf Hi).
    destruct (major_axis p); [contradiction | simpl; lia]. }
  assert (Htotal : total == inject_Z (Z.of_nat (length power))).
  { unfold total, cnt. rewrite Qsum_of_nats. rewrite counts_total; [reflexivity| |].
    - apply StronglySorted_lt_NoDup, Hsorted.
    - intros x Hx. apply Hix. exists (nth i (items p) EmptyString).
      split; [apply nth_In, Hi|].
      rewrite (item_loc_nth p i Hnd Hi). apply in_map, Hx. }
  pose proof (inject_nat_pos _ Hlen) as Hpos.
  assert (Htotal0 : ~ total == 0).
  { rewrite Htotal. intros E. rewrite E in Hpos. discriminate. }
  split; [apply length_map|]. split.
  - intros j Hj.
    rewrite (nth_indep _ 0 ((fun k => cnt k * 100 / total) 0%Z))
      by (rewrite length_map; exact Hj).
    rewrite (map_nth (fun k => cnt k * 100 / total)).
    set (k := nth j ix 0%Z).
    assert (E : cnt k * 100 / total
                == inject_Z (Z.of_nat (count_in_bin k power))
                   / inject_Z (Z.of_nat (length power)) * 100).
    { rewrite <- Htotal. unfold cnt. field. exact Htotal0. }
    split; [exact E|]. split.
    + rewrite E. apply Qmult_le_0_compat; [|discriminate].
      apply Qmult_le_0_compat; [apply inject_nat_nonneg|].
      apply Qinv_le_0_compat, Qlt_le_weak, Hpos.
    + intros H0. rewrite E, H0. unfold Qdiv. simpl inject_Z. ring.
  - rewrite (Qsum_map_scale cnt 100 total ix). fold total. field. exact Htotal0.
Qed.

Lemma load_duration_percentages_witness :
  exists tbl : Frame Z Q,
    load_duration_percent Sample.pnl_load = Ok tbl
    /\ Qsum (nth 0 (cols tbl) []) == 100
    /\ Qsum (nth 1 (cols tbl) []) == 100.
Proof.
  assert (Hnd : NoDup (items Sample.pnl_load)).
  { repeat constructor; simpl; intuition discriminate. }
  destruct (load_duration_percentages Sample.pnl_load 0 eq_refl eq_refl Hnd
              ltac:(discriminate) ltac:(discriminate))
    as [tbl [H1 [_ [_ [_ [_ H]]]]]].
  exists tbl. split; [exact H1|]. split.
  - apply (H 0%nat). simpl; lia.
  - apply (H 1%nat). simpl; lia.
Defined.

(** The sample table: house1 has one sample in each of the bins -200, 0 and
    200 and none in 400, where its cell is 0. *)
Example load_duration_percent_example :
  exists c1 c2,
    load_duration_percent Sample.pnl_load
    = Ok (mkFrame [-200; 0; 200; 400]%Z ["house1"; "house2"]%string [c1; c2])
    /\ Forall2 Qeq c1 [100 # 3; 100 # 3; 100 # 3; 0]
    /\ Forall2 Qeq c2 [0; 200 # 3; 0; 100 # 3].
Proof.
  do 2 eexists. split; [reflexivity|]. split; repeat constructor.
Qed.

(** * Further properties of the script *)

(** ** Errors of the energy derivation *)

Lemma get_loc_ok_in (key : string) (axis : list string) (i : nat) :
  get_loc key axis = Ok i -> In key axis.
Proof.
  revert i; induction axis as [|a r IH]; simpl; intros i H; [discriminate|].
  destruct (String.eqb_spec a key) as [E|E]; [left; exact E|].
  destruct (get_loc key r) as [k|e]; simpl in H; [|discriminate].
  right. apply (IH k eq_refl).
Qed.

Lemma get_loc_raise (key : string) (axis : list string) (e : exn) :
  get_loc key axis = Raise e -> e = KeyError /\ ~ In key axis.
Proof.
  intros H. split.
  - induction axis as [|a r IH]; simpl in H; [congruence|].
    destruct (String.eqb a key); [discriminate|].
    destruct (get_loc key r); simpl in H; [discriminate|].
    apply IH. congruence.
  - intros Hin. destruct (get_loc_in key axis Hin) as [i Hi]. congruence.
Qed.

(** X1: the energy derivation succeeds exactly when the Panel has a variable
    named Power; otherwise it raises [KeyError], and it raises nothing
    else. *)
Theorem derive_energy_needs_power (p : Panel) :
  (In "Power"%string (minor_axis p) -> exists p1, derive_energy p = Ok p1)
  /\ (~ In "Power"%string (minor_axis p) -> derive_energy p = Raise KeyError)
  /\ (forall e, derive_energy p = Raise e ->
                e = KeyError /\ ~ In "Power"%string (minor_axis p)).
Proof.
  split; [|split].
  - intros Hin. destruct (get_loc_in _ _ Hin) as [k Hk].
    rewrite (derive_energy_eq p k Hk). eauto.
  - intros Hn. apply derive_energy_raises, get_loc_not_in, Hn.
  - intros e H.
    destruct (get_loc "Power" (minor_axis p)) as [k|e'] eqn:Ek.
    + rewrite (derive_energy_eq p k Ek) in H. discriminate.
    + rewrite (derive_energy_raises p e' Ek) in H.
      inversion H; subst. apply (get_loc_raise _ _ _ Ek).
Qed.

Lemma derive_energy_needs_power_witness :
  (exists p1, derive_energy Sample.pnl0 = Ok p1)
  /\ derive_energy Sample.pnl_volts = Raise KeyError.
Proof.
  split.
  - apply (proj1 (derive_energy_needs_power Sample.pnl0)).
    left. reflexivity.
  - apply (proj1 (proj2 (derive_energy_needs_power Sample.pnl_volts))).
    intros [H|[]]. discriminate.
Defined.

(** ** Increments of the energy *)

Lemma energy_slice_cols (p p1 : Panel) (kP : nat) (energy : DataFrame) :
  wf_panel p = true ->
  get_loc "Power" (minor_axis p) = Ok kP ->
  derive_energy p = Ok p1 ->
  ix_minor p1 "Energy" = Ok energy ->
  forall i, nth i (cols energy) [] = energy_column (series_of p i kP).
Proof.
  intros Hwf Hk H1 He i.
  rewrite (derive_energy_eq p kP Hk) in H1. inversion H1; subst p1.
  destruct (energy_frame_shape p kP Hwf) as [Hlen Hcols].
  rewrite (ix_minor_set_same p "Energy" (energy_frame p kP) Hwf Hlen Hcols)
    in He.
  inversion He. cbn [cols]. apply energy_frame_col.
Qed.

Lemma Qsum_firstn_succ (l : list Q) (t : nat) :
  (t < length l)%nat ->
  Qsum (firstn (S t) l) == Qsum (firstn t l) + nth t l 0.
Proof.
  revert t. induction l as [|x l IH]; intros t H; simpl in H; [lia|].
  destruct t as [|t].
  - cbn [firstn nth]. rewrite Qsum_cons, !Qsum_nil. ring.
  - change (firstn (S (S t)) (x :: l)) with (x :: firstn (S t) l).
    change (firstn (S t) (x :: l)) with (x :: firstn t l).
    cbn [nth]. rewrite !Qsum_cons, IH by lia. ring.
Qed.

Lemma nth_map_Q (f : Q -> Q) (l : list Q) (t : nat) :
  (t < length l)%nat -> nth t (map f l) 0 = f (nth t l 0).
Proof.
  intros H. rewrite (nth_indep _ 0 (f 0)) by (rewrite length_map; exact H).
  apply map_nth.
Qed.

Lemma energy_column_step (power : list Q) (t : nat) :
  (S t < length power)%nat ->
  nth (S t) (energy_column power) 0
  == nth t (energy_column power) 0
     + nth (S t) power 0 * inject_Z dt * J_2_kWh.
Proof.
  intros H. rewrite !energy_column_nth by lia.
  rewrite (Qsum_firstn_succ _ (S t)) by (rewrite length_map; exact H).
  rewrite nth_map_Q by exact H. ring.
Qed.

(** X2: the power can be read back from the energy: between two
    consecutive time steps the energy of a house grows by the power of the
    later step times 120 s times 1/3,600,000. *)
Theorem energy_increment_is_power
    (p p1 : Panel) (kP : nat) (energy : DataFrame) :
  wf_panel p = true ->
  get_loc "Power" (minor_axis p) = Ok kP ->
  derive_energy p = Ok p1 ->
  ix_minor p1 "Energy" = Ok energy ->
  forall i t, (i < length (items p))%nat ->
              (S t < length (major_axis p))%nat ->
    nth (S t) (nth i (cols energy) []) 0 - nth t (nth i (cols energy) []) 0
    == nth (S t) (series_of p i kP) 0 * 120 * (1 # 3600000).
Proof.
  intros Hwf Hk H1 He i t Hi Ht.
  rewrite (energy_slice_cols p p1 kP energy Hwf Hk H1 He i).
  rewrite energy_column_step
    by (rewrite (series_of_length p i kP Hwf Hi); exact Ht).
  change (inject_Z dt) with 120. change J_2_kWh with (1 # 3600000). ring.
Qed.

Lemma energy_increment_is_power_witness :
  exists p1 energy,
    derive_energy Sample.pnl0 = Ok p1
    /\ ix_minor p1 "Energy" = Ok energy
    /\ nth 1 (nth 0 (cols energy) []) 0 - nth 0 (nth 0 (cols energy) []) 0
       == 20 * 120 * (1 # 3600000).
Proof.
  do 2 eexists. split; [reflexivity|]. split; [reflexivity|].
  apply (energy_increment_is_power Sample.pnl0 _ 0 _ eq_refl eq_refl
           eq_refl eq_refl 0%nat 0%nat); simpl; lia.
Defined.

Lemma Qplus_nonneg (a b : Q) : 0 <= a -> 0 <= b -> 0 <= a + b.
Proof.
  intros Ha Hb. apply (Qle_trans _ (0 + 0)).
  - unfold Qle; simpl; lia.
  - apply Qplus_le_compat; assumption.
Qed.

Lemma Qle_plus_nonneg (a b : Q) : 0 <= b -> a <= a + b.
Proof.
  intros Hb. apply (Qle_trans _ (a + 0)).
  - rewrite Qplus_0_r. apply Qle_refl.
  - apply Qplus_le_compat; [apply Qle_refl | exact Hb].
Qed.

Lemma energy_column_nonneg (power : list Q) (t : nat) :
  (forall x, In x power -> 0 <= x) ->
  (t < length power)%nat -> 0 <= nth t (energy_column power) 0.
Proof.
  intros Hpos. induction t as [|t IH]; intros Ht.
  - rewrite energy_column_first.
    repeat apply Qmult_le_0_compat; try discriminate.
    apply Hpos, nth_In, Ht.
  - rewrite energy_column_step by exact Ht.
    apply Qplus_nonneg; [apply IH; lia|].
    repeat apply Qmult_le_0_compat; try discriminate.
    apply Hpos, nth_In, Ht.
Qed.

Lemma energy_column_monotone (power : list Q) (t u : nat) :
  (forall x, In x power -> 0 <= x) ->
  (t <= u)%nat -> (u < length power)%nat ->
  nth t (energy_column power) 0 <= nth u (energy_column power) 0.
Proof.
  intros Hpos Htu. induction Htu as [|u Htu IH]; intros Hu.
  - apply Qle_refl.
  - eapply Qle_trans; [apply IH; lia|].
    rewrite (energy_column_step power u) by exact Hu.
    apply Qle_plus_nonneg.
    repeat apply Qmult_le_0_compat; try discriminate.
    apply Hpos, nth_In, Hu.
Qed.

(** X3: for a house whose power samples are all non-negative, the energy is
    non-negative and never decreases along the time axis. *)
Theorem energy_never_decreases
    (p p1 : Panel) (kP : nat) (energy : DataFrame) (i : nat) :
  wf_panel p = true ->
  get_loc "Power" (minor_axis p) = Ok kP ->
  derive_energy p = Ok p1 ->
  ix_minor p1 "Energy" = Ok energy ->
  (i < length (items p))%nat ->
  (forall x, In x (series_of p i kP) -> 0 <= x) ->
  forall t u, (t <= u)%nat -> (u < length (major_axis p))%nat ->
    0 <= nth t (nth i (cols energy) []) 0
    /\ nth t (nth i (cols energy) []) 0 <= nth u (nth i (cols energy) []) 0.
Proof.
  intros Hwf Hk H1 He Hi Hpos t u Htu Hu.
  rewrite (energy_slice_cols p p1 kP energy Hwf Hk H1 He i).
  pose proof (series_of_length p i kP Hwf Hi) as Hlen.
  split.
  - apply energy_column_nonneg; [exact Hpos | lia].
  - apply energy_column_monotone; [exact Hpos | exact Htu | lia].
Qed.

Lemma energy_never_decreases_witness :
  exists p1 energy,
    derive_energy Sample.pnl0 = Ok p1
    /\ ix_minor p1 "Energy" = Ok energy
    /\ nth 0 (nth 0 (cols energy) []) 0 <= nth 2 (nth 0 (cols energy) []) 0.
Proof.
  do 2 eexists. split; [reflexivity|]. split; [reflexivity|].
  apply (energy_never_decreases Sample.pnl0 _ 0 _ 0 eq_refl eq_refl
           eq_refl eq_refl); try (simpl; lia).
  intros x [<-|[<-|[<-|[]]]]; discriminate.
Defined.

(** ** Mean and maximum over the time axis *)

Lemma panel_reduce_cell (f : list Q -> option Q) (p : Panel) (i k : nat) :
  (i < length (pvalues p))%nat -> (k < length (minor_axis p))%nat ->
  nth k (nth i (cols (panel_reduce f p)) []) None = f (series_of p i k).
Proof.
  intros Hi Hk. unfold panel_reduce, series_of. cbn [cols].
  set (row := fun m : list (list Q) =>
                map (fun k => f (map (fun r => nth k r 0) m))
                    (seq 0 (length (minor_axis p)))).
  rewrite (nth_indep _ [] (row [])) by (rewrite length_map; exact Hi).
  rewrite (map_nth row). unfold row.
  set (cell := fun k => f (map (fun r => nth k r 0) (nth i (pvalues p) []))).
  rewrite (nth_indep _ None (cell O))
    by (rewrite length_map, length_seq; exact Hk).
  rewrite (map_nth cell), seq_nth by exact Hk. reflexivity.
Qed.

Lemma np_maximum_cases (a b : Q) :
  (np_maximum a b = a \/ np_maximum a b = b)
  /\ a <= np_maximum a b /\ b <= np_maximum a b.
Proof.
  unfold np_maximum. destruct (Qle_bool a b) eqn:E.
  - apply Qle_bool_iff in E. repeat split; auto. apply Qle_refl.
  - repeat split; auto; [apply Qle_refl|].
    apply Qlt_le_weak, Qnot_le_lt. intros H.
    apply Qle_bool_iff in H. congruence.
Qed.

Lemma fold_maximum_spec (r : list Q) (x : Q) :
  In (fold_left np_maximum r x) (x :: r)
  /\ forall y, In y (x :: r) -> y <= fold_left np_maximum r x.
Proof.
  revert x. induction r as [|a r IH]; intros x; cbn [fold_left].
  - split; [left; reflexivity|]. intros y [<-|[]]. apply Qle_refl.
  - destruct (IH (np_maximum x a)) as [Hin Hle].
    destruct (np_maximum_cases x a) as [Hc [Hx Ha]].
    split.
    + destruct Hin as [Hin|Hin]; [|right; right; exact Hin].
      rewrite <- Hin. destruct Hc as [->| ->]; simpl; auto.
    + intros y [<-|[<-|Hy]].
      * eapply Qle_trans; [exact Hx|]. apply Hle. left. reflexivity.
      * eapply Qle_trans; [exact Ha|]. apply Hle. left. reflexivity.
      * apply Hle. right. exact Hy.
Qed.

(** X4: [pnl.max()] is a table over the variables with one column per
    house; on a Panel with at least one time step its cell for a house and
    a variable is one of the house's samples of that variable and no sample
    exceeds it; without time steps the cell is NaN. *)
Theorem panel_max_is_largest_sample (p : Panel) (i k : nat) :
  wf_panel p = true ->
  (i < length (items p))%nat ->
  (k < length (minor_axis p))%nat ->
  index (panel_max p) = minor_axis p
  /\ columns (panel_max p) = items p
  /\ (major_axis p = [] ->
      nth k (nth i (cols (panel_max p)) []) None = None)
  /\ (major_axis p <> [] ->
      exists m, nth k (nth i (cols (panel_max p)) []) None = Some m
                /\ In m (series_of p i k)
                /\ forall x, In x (series_of p i k) -> x <= m).
Proof.
  intros Hwf Hi Hk.
  pose proof (proj1 (proj1 (wf_panel_spec p) Hwf)) as Hl.
  pose proof (series_of_length p i k Hwf Hi) as Hlen.
  unfold panel_max.
  rewrite (panel_reduce_cell stat_max p i k) by (try rewrite Hl; assumption).
  split; [reflexivity|]. split; [reflexivity|]. split.
  - intros E. rewrite E in Hlen.
    destruct (series_of p i k); [reflexivity | discriminate].
  - intros Hne. destruct (series_of p i k) as [|x r].
    + destruct (major_axis p); [contradiction | discriminate].
    + exists (fold_left np_maximum r x). split; [reflexivity|].
      apply fold_maximum_spec.
Qed.

Lemma panel_max_is_largest_sample_witness :
  exists m, nth 0 (nth 0 (cols (panel_max Sample.pnl0)) []) None = Some m
            /\ forall x, In x (series_of Sample.pnl0 0 0) -> x <= m.
Proof.
  destruct (panel_max_is_largest_sample Sample.pnl0 0 0 eq_refl)
    as [_ [_ [_ H]]]; try (simpl; lia).
  destruct (H ltac:(discriminate)) as [m [H1 [_ H2]]].
  exists m. split; assumption.
Defined.

Lemma Qsum_upper (hi : Q) (l : list Q) :
  (forall x, In x l -> x <= hi) ->
  Qsum l <= hi * inject_Z (Z.of_nat (length l)).
Proof.
  induction l as [|x l IH]; intros H.
  - rewrite Qsum_nil. simpl. rewrite Qmult_0_r. apply Qle_refl.
  - rewrite Qsum_cons. cbn [length].
    rewrite Nat2Z.inj_succ. unfold Z.succ. rewrite inject_Z_plus.
    setoid_replace (hi * (inject_Z (Z.of_nat (length l)) + inject_Z 1))
      with (hi + hi * inject_Z (Z.of_nat (length l))) by ring.
    apply Qplus_le_compat; [apply H; left; reflexivity|].
    apply IH. intros y Hy. apply H. right. exact Hy.
Qed.

Lemma Qsum_lower (lo : Q) (l : list Q) :
  (forall x, In x l -> lo <= x) ->
  lo * inject_Z (Z.of_nat (length l)) <= Qsum l.
Proof.
  induction l as [|x l IH]; intros H.
  - rewrite Qsum_nil. simpl. rewrite Qmult_0_r. apply Qle_refl.
  - rewrite Qsum_cons. cbn [length].
    rewrite Nat2Z.inj_succ. unfold Z.succ. rewrite inject_Z_plus.
    setoid_replace (lo * (inject_Z (Z.of_nat (length l)) + inject_Z 1))
      with (lo + lo * inject_Z (Z.of_nat (length l))) by ring.
    apply Qplus_le_compat; [apply H; left; reflexivity|].
    apply IH. intros y Hy. apply H. right. exact Hy.
Qed.

Lemma mean_le (hi : Q) (l : list Q) :
  l <> [] -> (forall x, In x l -> x <= hi) -> mean l <= hi.
Proof.
  intros Hne H. unfold mean. apply Qle_shift_div_r.
  - apply inject_nat_pos. destruct l; [contradiction | simpl; lia].
  - apply Qsum_upper, H.
Qed.

Lemma mean_ge (lo : Q) (l : list Q) :
  l <> [] -> (forall x, In x l -> lo <= x) -> lo <= mean l.
Proof.
  intros Hne H. unfold mean. apply Qle_shift_div_l.
  - apply inject_nat_pos. destruct l; [contradiction | simpl; lia].
  - apply Qsum_lower, H.
Qed.

Lemma mean_times_count (l : list Q) :
  l <> [] -> mean l * inject_Z (Z.of_nat (length l)) == Qsum l.
Proof.
  intros Hne. unfold mean. field.
  intros E.
  assert (Hpos : 0 < inject_Z (Z.of_nat (length l)))
    by (apply inject_nat_pos; destruct l; [contradiction | simpl; lia]).
  rewrite E in Hpos. discriminate.
Qed.

(** X5: on a Panel with at least one time step the cell of [pnl.mean()]
    for a house and a variable, multiplied by the number of time steps, is
    the sum of the samples; it lies between any two bounds of the samples
    and does not exceed the cell of [pnl.max()].  Without time steps it is
    NaN. *)
Theorem panel_mean_is_average (p : Panel) (i k : nat) :
  wf_panel p = true ->
  (i < length (items p))%nat ->
  (k < length (minor_axis p))%nat ->
  (major_axis p = [] ->
   nth k (nth i (cols (panel_mean p)) []) None = None)
  /\ (major_axis p <> [] ->
      exists mu m,
        nth k (nth i (cols (panel_mean p)) []) None = Some mu
        /\ nth k (nth i (cols (panel_max p)) []) None = Some m
        /\ mu * inject_Z (Z.of_nat (length (major_axis p)))
           == Qsum (series_of p i k)
        /\ mu <= m
        /\ forall lo hi,
             (forall x, In x (series_of p i k) -> lo <= x <= hi) ->
             lo <= mu <= hi).
Proof.
  intros Hwf Hi Hk.
  pose proof (proj1 (proj1 (wf_panel_spec p) Hwf)) as Hl.
  pose proof (series_of_length p i k Hwf Hi) as Hlen.
  unfold panel_mean, panel_max.
  rewrite !panel_reduce_cell by (try rewrite Hl; assumption).
  split.
  - intros E. rewrite E in Hlen.
    destruct (series_of p i k); [reflexivity | discriminate].
  - intros Hne.
    assert (Hs : series_of p i k <> []).
    { intros E. rewrite E in Hlen. destruct (major_axis p);
        [contradiction | discriminate]. }
    destruct (series_of p i k) as [|x r] eqn:Es; [contradiction|].
    exists (mean (x :: r)), (fold_left np_maximum r x).
    split; [reflexivity|]. split; [reflexivity|]. split.
    + rewrite <- Hlen. apply mean_times_count, Hs.
    + split.
      * apply mean_le; [exact Hs|]. intros y Hy.
        apply fold_maximum_spec, Hy.
      * intros lo hi Hb. split.
        -- apply mean_ge; [exact Hs|]. intros y Hy. apply Hb, Hy.
        -- apply mean_le; [exact Hs|]. intros y Hy. apply Hb, Hy.
Qed.

Lemma panel_mean_is_average_witness :
  exists mu,
    nth 0 (nth 0 (cols (panel_mean Sample.pnl0)) []) None = Some mu
    /\ mu * 3 == Qsum (series_of Sample.pnl0 0 0).
Proof.
  destruct (panel_mean_is_average Sample.pnl0 0 0 eq_refl) as [_ H];
    try (simpl; lia).
  destruct (H ltac:(discriminate)) as [mu [m [H1 [_ [H2 _]]]]].
  exists mu. split; assumption.
Defined.


(** ** The last energy value *)

Lemma Qsum_map_mul (c : Q) (l : list Q) :
  Qsum (map (fun x => x * c) l) == Qsum l * c.
Proof.
  induction l as [|x l IH]; simpl map.
  - rewrite Qsum_nil. ring.
  - rewrite !Qsum_cons, IH. ring.
Qed.

Lemma energy_column_last (power : list Q) :
  power <> [] ->
  nth (length power - 1) (energy_column power) 0
  == Qsum power * inject_Z dt * J_2_kWh.
Proof.
  intros Hne.
  assert (Hlen : (0 < length power)%nat)
    by (destruct power; [contradiction | simpl; lia]).
  rewrite energy_column_nth by lia.
  replace (S (length power - 1)) with (length (map (fun x => x * inject_Z dt)
                                                   power))
    by (rewrite length_map; lia).
  rewrite firstn_all, Qsum_map_mul. reflexivity.
Qed.

(** X6: the energy of a house at the last time step is the house's mean
    power, as [pnl.mean()] gives it, times the number of time steps, times
    120 s, times 1/3,600,000. *)
Theorem final_energy_is_mean_power_times_duration
    (p p1 : Panel) (kP : nat) (energy : DataFrame) (i : nat) :
  wf_panel p = true ->
  get_loc "Power" (minor_axis p) = Ok kP ->
  derive_energy p = Ok p1 ->
  ix_minor p1 "Energy" = Ok energy ->
  (i < length (items p))%nat ->
  major_axis p <> [] ->
  exists mu,
    nth kP (nth i (cols (panel_mean p)) []) None = Some mu
    /\ nth (length (major_axis p) - 1) (nth i (cols energy) []) 0
       == mu * inject_Z (Z.of_nat (length (major_axis p)))
          * 120 * (1 # 3600000).
Proof.
  intros Hwf Hk H1 He Hi Hne.
  pose proof (proj1 (proj1 (wf_panel_spec p) Hwf)) as Hl.
  pose proof (series_of_length p i kP Hwf Hi) as Hlen.
  unfold panel_mean.
  rewrite panel_reduce_cell
    by (try rewrite Hl; try apply (get_loc_bound _ _ _ Hk); assumption).
  rewrite (energy_slice_cols p p1 kP energy Hwf Hk H1 He i).
  assert (Hs : series_of p i kP <> []).
  { intros E. rewrite E in Hlen. destruct (major_axis p);
      [contradiction | discriminate]. }
  rewrite <- Hlen.
  exists (mean (series_of p i kP)). split.
  - destruct (series_of p i kP); [contradiction | reflexivity].
  - rewrite (energy_column_last _ Hs), (mean_times_count _ Hs).
    reflexivity.
Qed.

Lemma final_energy_is_mean_power_times_duration_witness :
  exists p1 energy mu,
    derive_energy Sample.pnl0 = Ok p1
    /\ ix_minor p1 "Energy" = Ok energy
    /\ nth 0 (nth 1 (cols (panel_mean Sample.pnl0)) []) None = Some mu
    /\ nth 2 (nth 1 (cols energy) []) 0 == mu * 3 * 120 * (1 # 3600000).
Proof.
  destruct (final_energy_is_mean_power_times_duration Sample.pnl0 _ 0 _ 1
              eq_refl eq_refl eq_refl eq_refl) as [mu [H1 H2]];
    [simpl; lia | discriminate |].
  do 2 eexists. exists mu. split; [reflexivity|]. split; [reflexivity|].
  split; [exact H1 | exact H2].
Defined.

(** ** The shape of the Panel after the derivation *)

(** X7: the derivation keeps the Panel well formed; the minor axis is
    unchanged when it has the label Energy and gains that one label at its
    end when it has not, so the label is always there afterwards. *)
Theorem derive_energy_keeps_shape (p p1 : Panel) :
  wf_panel p = true ->
  derive_energy p = Ok p1 ->
  wf_panel p1 = true
  /\ In "Energy"%string (minor_axis p1)
  /\ (In "Energy"%string (minor_axis p) -> minor_axis p1 = minor_axis p)
  /\ (~ In "Energy"%string (minor_axis p) ->
      minor_axis p1 = minor_axis p ++ ["Energy"%string])
  /\ length (pvalues p1) = length (pvalues p).
Proof.
  intros Hwf H.
  pose proof (derive_energy_wf p p1 Hwf H) as Hwf1.
  destruct (derive_energy_inv p p1 H) as [k [Hk ->]].
  destruct (ix_set_minor_axes p "Energy" (energy_frame p k))
    as [Hi [_ [Hkeep Hnew]]].
  split; [exact Hwf1|].
  assert (Hold : In "Energy"%string (minor_axis p) ->
                 minor_axis (ix_set_minor p "Energy" (energy_frame p k))
                 = minor_axis p).
  { intros Hin. destruct (get_loc_in _ _ Hin) as [j Hj].
    unfold ix_set_minor. rewrite Hj. reflexivity. }
  split; [|split; [exact Hold|split; [exact Hnew|]]].
  - destruct (in_dec string_dec "Energy"%string (minor_axis p)) as [Hin|Hn].
    + rewrite (Hold Hin). exact Hin.
    + rewrite (Hnew Hn). apply in_or_app. right. left. reflexivity.
  - apply wf_panel_spec in Hwf as [Hl _], Hwf1 as [Hl1 _].
    rewrite Hl, Hl1, Hi. reflexivity.
Qed.

Lemma derive_energy_keeps_shape_witness :
  exists p1, derive_energy Sample.pnl0 = Ok p1
             /\ wf_panel p1 = true
             /\ minor_axis p1 = ["Power"; "Vrms"; "Energy"]%string.
Proof.
  eexists. split; [reflexivity|].
  destruct (derive_energy_keeps_shape Sample.pnl0 _ eq_refl eq_refl)
    as [H1 [_ [_ [H2 _]]]].
  split; [exact H1|]. apply H2.
  intros [H|[H|[]]]; discriminate.
Defined.

(** ** Errors of the hourly grouping *)

Lemma all_timestamps (ls : list label) :
  (forall l, In l ls -> exists v, l = Timestamp v) ->
  exists stamps, ls = map Timestamp stamps.
Proof.
  induction ls as [|l ls IH]; intros H.
  - exists []. reflexivity.
  - destruct (H l (or_introl eq_refl)) as [v ->].
    destruct IH as [stamps ->]; [intros; apply H; right; assumption|].
    exists (v :: stamps). reflexivity.
Qed.

Lemma label_hour_cases (l : label) :
  label_hour l = Raise AttributeError \/ exists h, label_hour l = Ok h.
Proof. destruct l; simpl; eauto. Qed.

Lemma hourly_mean_text_index (p : Panel) :
  In "Power"%string (minor_axis p) ->
  (exists s, In (Text s) (major_axis p)) ->
  hourly_mean p = Raise AttributeError.
Proof.
  unfold hourly_mean, agg_hourly_power, ix_minor.
  intros Hin [s Hs]. destruct (get_loc_in _ _ Hin) as [k ->].
  cbn [bind index].
  rewrite (mapM_raise label_hour (major_axis p) AttributeError).
  - reflexivity.
  - intros l _. apply label_hour_cases.
  - exists (Text s). split; [exact Hs | reflexivity].
Qed.

Lemma hourly_mean_stamps_ok (p : Panel) :
  In "Power"%string (minor_axis p) ->
  (forall l, In l (major_axis p) -> exists v, l = Timestamp v) ->
  exists tbl, hourly_mean p = Ok tbl.
Proof.
  unfold hourly_mean, agg_hourly_power, ix_minor.
  intros Hin Hall. destruct (get_loc_in _ _ Hin) as [k ->].
  destruct (all_timestamps _ Hall) as [stamps ->].
  cbn [bind index]. rewrite hours_of_stamps. cbn [bind]. eauto.
Qed.

(** X8: the hourly grouping needs the variable Power ([KeyError] without
    it) and a parsed time index: one label that is still text makes
    [x.hour] raise [AttributeError]; with Power and time stamps only, the
    table of hourly means is produced. *)
Theorem hourly_mean_errors (p : Panel) :
  (~ In "Power"%string (minor_axis p) -> hourly_mean p = Raise KeyError)
  /\ (In "Power"%string (minor_axis p) ->
      (exists s, In (Text s) (major_axis p)) ->
      hourly_mean p = Raise AttributeError)
  /\ (In "Power"%string (minor_axis p) ->
      (forall l, In l (major_axis p) -> exists v, l = Timestamp v) ->
      exists tbl, hourly_mean p = Ok tbl).
Proof.
  split; [|split].
  - intros Hn. unfold hourly_mean, agg_hourly_power, ix_minor.
    rewrite (get_loc_not_in _ _ Hn). reflexivity.
  - apply hourly_mean_text_index.
  - apply hourly_mean_stamps_ok.
Qed.

Lemma hourly_mean_errors_witness :
  hourly_mean Sample.pnl_volts = Raise KeyError
  /\ hourly_mean Sample.pnl_text = Raise AttributeError
  /\ exists tbl, hourly_mean Sample.pnl_hours = Ok tbl.
Proof.
  split; [|split].
  - apply (proj1 (hourly_mean_errors Sample.pnl_volts)).
    intros [H|[]]. discriminate.
  - apply (proj1 (proj2 (hourly_mean_errors Sample.pnl_text))).
    + left. reflexivity.
    + exists "yesterday"%string. left. reflexivity.
  - apply (proj2 (proj2 (hourly_mean_errors Sample.pnl_hours))).
    + left. reflexivity.
    + intros l [<-|[<-|[<-|[]]]]; eauto.
Defined.

(** ** The hourly means as a partition of the samples *)

Lemma hourly_mean_eq (p : Panel) (kP : nat) (stamps : list Z) :
  wf_panel p = true ->
  get_loc "Power" (minor_axis p) = Ok kP ->
  major_axis p = map Timestamp stamps ->
  hourly_mean p
  = Ok (mkFrame (map fst (groupby (map hour stamps))) (items p)
          (map (fun m =>
                  map (fun h => mean (samples_at h (map hour stamps)
                                        (map (fun r => nth kP r 0) m)))
                      (map fst (groupby (map hour stamps))))
               (pvalues p))).
Proof.
  intros Hwf Hk Hmaj.
  unfold hourly_mean, agg_hourly_power, ix_minor. rewrite Hk.
  cbn [bind index]. rewrite Hmaj, hours_of_stamps. cbn [bind].
  unfold gb_mean. cbn [gb_obj gb_keys columns cols]. do 2 f_equal.
  rewrite map_map. apply map_ext_in. intros m Hm.
  rewrite map_map. apply map_ext_in. intros grp Hgrp.
  rewrite (groupby_group _ _ Hgrp).
  assert (Hlen : length (map (fun r => nth kP r 0) m)
                 = length (map hour stamps)).
  { apply wf_panel_spec in Hwf as [_ Hrows].
    rewrite Forall_forall in Hrows. destruct (Hrows m Hm) as [Hr _].
    rewrite !length_map, Hr, Hmaj, length_map. reflexivity. }
  pose proof (take_rows_sel (fst grp) (map hour stamps)
                (map (fun r => nth kP r 0) m) [] Hlen) as E.
  cbn [length app] in E. rewrite E. reflexivity.
Qed.

Lemma Qsum_map_ext {A : Type} (f g : A -> Q) (l : list A) :
  (forall a, In a l -> f a == g a) -> Qsum (map f l) == Qsum (map g l).
Proof.
  induction l as [|a l IH]; intros H; simpl map; [reflexivity|].
  rewrite !Qsum_cons, (H a (or_introl eq_refl)), IH; [reflexivity|].
  intros b Hb. apply H. right. exact Hb.
Qed.

Lemma Qsum_map_plus {A : Type} (f g : A -> Q) (l : list A) :
  Qsum (map (fun a => f a + g a) l) == Qsum (map f l) + Qsum (map g l).
Proof.
  induction l as [|a l IH]; simpl map.
  - rewrite !Qsum_nil. ring.
  - rewrite !Qsum_cons, IH. ring.
Qed.

Lemma Qsum_indicator (k : Z) (x : Q) (ix : list Z) :
  NoDup ix -> In k ix ->
  Qsum (map (fun h => if (k =? h)%Z then x else 0) ix) == x.
Proof.
  induction 1 as [|a l Hnotin _ IH]; intros Hin; [contradiction|].
  simpl map. rewrite Qsum_cons. destruct (Z.eqb_spec k a) as [E|E].
  - subst. rewrite (Qsum_map_ext _ (fun _ => 0)).
    + clear. induction l as [|c l IHl]; simpl map.
      * rewrite Qsum_nil. ring.
      * rewrite Qsum_cons. rewrite Qplus_0_l. exact IHl.
    + intros h Hh. destruct (Z.eqb_spec a h); [|reflexivity].
      subst. contradiction.
  - rewrite IH; [ring|]. destruct Hin; [congruence | assumption].
Qed.

(** Summing the groups gives the sum of the column. *)
Lemma groups_partition_sum (ix keys : list Z) (col : list Q) :
  NoDup ix -> (forall k, In k keys -> In k ix) ->
  length keys = length col ->
  Qsum (map (fun h => Qsum (samples_at h keys col)) ix) == Qsum col.
Proof.
  intros Hnd. revert col. induction keys as [|k keys IH];
    intros [|x col] Hall Hlen; simpl in Hlen; try discriminate.
  - rewrite (Qsum_map_ext _ (fun _ => 0)) by (intros; reflexivity).
    clear. induction ix as [|c l IHl]; simpl map.
    + reflexivity.
    + rewrite Qsum_cons, Qplus_0_l. exact IHl.
  - rewrite (Qsum_map_ext _
               (fun h => (if (k =? h)%Z then x else 0)
                         + Qsum (samples_at h keys col))).
    + rewrite Qsum_map_plus, Qsum_indicator, IH, Qsum_cons; auto.
      * reflexivity.
      * intros k' Hk'. apply Hall. right. exact Hk'.
      * apply Hall. left. reflexivity.
    + intros h _. unfold samples_at, sel. cbn [combine filter fst].
      destruct (k =? h)%Z; cbn [map snd].
      * rewrite Qsum_cons. reflexivity.
      * rewrite Qplus_0_l. reflexivity.
Qed.

Lemma partition_count {A : Type} (key : A -> Z) (ix : list Z) (l : list A) :
  NoDup ix -> (forall a, In a l -> In (key a) ix) ->
  list_sum (map (fun k => length (filter (fun a => (key a =? k)%Z) l)) ix)
  = length l.
Proof.
  intros Hnd. induction l as [|x l IH]; intros Hall.
  - simpl. clear. induction ix as [|a r IHr]; simpl; auto.
  - rewrite (map_ext _ (fun k => (if (key x =? k)%Z then 1 else 0)
                                 + length (filter (fun a => (key a =? k)%Z) l))%nat).
    + rewrite list_sum_map_add, indicator_sum, IH; simpl; auto.
      * intros y Hy. apply Hall. right. exact Hy.
      * apply Hall. left. reflexivity.
    + intros k. simpl. destruct (key x =? k)%Z; reflexivity.
Qed.

Lemma samples_at_length (h : Z) (stamps : list Z) (col : list Q) :
  length stamps = length col ->
  length (samples_at h (map hour stamps) col)
  = length (filter (fun v => (hour v =? h)%Z) stamps).
Proof.
  intros H. unfold samples_at.
  rewrite sel_length_filter by (rewrite length_map; exact H).
  apply filter_map_length.
Qed.

Lemma hourly_column (p : Panel) (kP i : nat) (ix hours : list Z) :
  (i < length (pvalues p))%nat ->
  nth i (map (fun m =>
                map (fun h => mean (samples_at h hours
                                      (map (fun r => nth kP r 0) m))) ix)
             (pvalues p)) []
  = map (fun h => mean (samples_at h hours (series_of p i kP))) ix.
Proof.
  intros Hi. unfold series_of.
  set (F := fun m : list (list Q) =>
              map (fun h => mean (samples_at h hours
                                    (map (fun r => nth kP r 0) m))) ix).
  rewrite (nth_indep _ [] (F [])) by (rewrite length_map; exact Hi).
  apply (map_nth F).
Qed.

(** X9: the hourly table loses no sample and counts none twice: the
    numbers of time stamps per listed hour add up to the number of time
    steps, and the hourly means of a house, each weighted by the number of
    time stamps of its hour, add up to the sum of the house's power
    samples. *)
Theorem hourly_means_weigh_back
    (p : Panel) (kP : nat) (stamps : list Z) (tbl : Frame Z Q) (i : nat) :
  wf_panel p = true ->
  get_loc "Power" (minor_axis p) = Ok kP ->
  major_axis p = map Timestamp stamps ->
  hourly_mean p = Ok tbl ->
  (i < length (items p))%nat ->
  let n := fun h => length (filter (fun v => (hour v =? h)%Z) stamps) in
  list_sum (map n (index tbl)) = length stamps
  /\ Qsum (zip_with (fun h m => inject_Z (Z.of_nat (n h)) * m)
             (index tbl) (nth i (cols tbl) []))
     == Qsum (series_of p i kP).
Proof.
  intros Hwf Hk Hmaj H Hi n.
  rewrite (hourly_mean_eq p kP stamps Hwf Hk Hmaj) in H.
  inversion H; subst tbl; clear H. cbn [index cols].
  set (hours := map hour stamps).
  set (ix := map fst (groupby hours)).
  assert (Hnd : NoDup ix)
    by (apply StronglySorted_lt_NoDup, groupby_sorted).
  assert (Hcover : forall k, In k hours -> In k ix)
    by (intros k Hk'; apply groupby_keys, Hk').
  pose proof (proj1 (proj1 (wf_panel_spec p) Hwf)) as Hl.
  assert (Hlen : length stamps = length (series_of p i kP)).
  { rewrite (series_of_length p i kP Hwf Hi), Hmaj, length_map.
    reflexivity. }
  split.
  - apply (partition_count hour ix stamps Hnd).
    intros v Hv. apply Hcover. unfold hours. apply in_map, Hv.
  - rewrite hourly_column by (rewrite Hl; exact Hi).
    rewrite <- (map_id ix) at 1. rewrite zip_with_maps.
    rewrite (Qsum_map_ext _
               (fun h => Qsum (samples_at h hours (series_of p i kP)))).
    + apply groups_partition_sum; [exact Hnd | exact Hcover|].
      unfold hours. rewrite length_map. exact Hlen.
    + intros h _. unfold n, hours.
      rewrite <- (samples_at_length h stamps (series_of p i kP) Hlen).
      destruct (samples_at h (map hour stamps) (series_of p i kP))
        as [|x r] eqn:Es.
      * unfold mean. rewrite Qsum_nil. simpl. unfold Qdiv. ring.
      * rewrite Qmult_comm. apply mean_times_count. discriminate.
Qed.

Lemma hourly_means_weigh_back_witness :
  exists tbl,
    hourly_mean Sample.pnl_hours = Ok tbl
    /\ Qsum (zip_with
               (fun h m =>
                  inject_Z (Z.of_nat
                    (length (filter (fun v => (hour v =? h)%Z)
                               [0; 120000000000; 3600000000000]%Z))) * m)
               (index tbl) (nth 0 (cols tbl) []))
       == Qsum (series_of Sample.pnl_hours 0 0).
Proof.
  eexists. split; [reflexivity|].
  apply (hourly_means_weigh_back Sample.pnl_hours 0
           [0; 120000000000; 3600000000000]%Z _ 0
           eq_refl eq_refl eq_refl eq_refl).
  simpl; lia.
Defined.

Lemma samples_at_subset (h : Z) (keys : list Z) (col : list Q) (x : Q) :
  In x (samples_at h keys col) -> In x col.
Proof.
  unfold samples_at, sel. intros H.
  apply in_map_iff in H as [[k y] [<- Hin]].
  apply filter_In in Hin as [Hin _]. apply (in_combine_r _ _ _ _ Hin).
Qed.

(** X10: every hourly mean of a house lies between any two bounds of the
    house's power samples. *)
Theorem hourly_means_within_bounds
    (p : Panel) (kP : nat) (stamps : list Z) (tbl : Frame Z Q) (i : nat)
    (lo hi : Q) :
  wf_panel p = true ->
  get_loc "Power" (minor_axis p) = Ok kP ->
  major_axis p = map Timestamp stamps ->
  hourly_mean p = Ok tbl ->
  (i < length (items p))%nat ->
  (forall x, In x (series_of p i kP) -> lo <= x <= hi) ->
  forall j, (j < length (index tbl))%nat ->
    lo <= nth j (nth i (cols tbl) []) 0 <= hi.
Proof.
  intros Hwf Hk Hmaj H Hi Hb j Hj.
  rewrite (hourly_mean_eq p kP stamps Hwf Hk Hmaj) in H.
  inversion H; subst tbl; clear H. cbn [index cols] in *.
  pose proof (proj1 (proj1 (wf_panel_spec p) Hwf)) as Hl.
  rewrite hourly_column by (rewrite Hl; exact Hi).
  set (hours := map hour stamps) in *.
  set (ix := map fst (groupby hours)) in *.
  set (cell := fun h => mean (samples_at h hours (series_of p i kP))).
  rewrite (nth_indep _ 0 (cell 0%Z)) by (rewrite length_map; exact Hj).
  rewrite (map_nth cell). unfold cell.
  assert (Hne : samples_at (nth j ix 0%Z) hours (series_of p i kP) <> []).
  { unfold samples_at. intros E. apply sel_nil_iff in E. apply E.
    rewrite map_fst_combine.
    - apply groupby_keys. apply nth_In. exact Hj.
    - unfold hours.
      rewrite (series_of_length p i kP Hwf Hi), Hmaj, !length_map.
      reflexivity. }
  split.
  - apply mean_ge; [exact Hne|]. intros x Hx.
    apply Hb, (samples_at_subset _ _ _ _ Hx).
  - apply mean_le; [exact Hne|]. intros x Hx.
    apply Hb, (samples_at_subset _ _ _ _ Hx).
Qed.

Lemma hourly_means_within_bounds_witness :
  exists tbl,
    hourly_mean Sample.pnl_hours = Ok tbl
    /\ 10 <= nth 0 (nth 0 (cols tbl) []) 0 <= 30.
Proof.
  eexists. split; [reflexivity|].
  apply (hourly_means_within_bounds Sample.pnl_hours 0
           [0; 120000000000; 3600000000000]%Z _ 0 10 30
           eq_refl eq_refl eq_refl eq_refl); try (simpl; lia).
  intros x [<-|[<-|[<-|[]]]]; split; discriminate.
Defined.

(** ** Bins and order *)

Lemma floordiv_monotone (x y : Q) :
  x <= y -> (floordiv x size_bins <= floordiv y size_bins)%Z.
Proof.
  intros H. unfold floordiv. apply Qfloor_resp_le. unfold Qdiv.
  apply Qmult_le_compat_r; [exact H | discriminate].
Qed.

(** X11: binning respects the order of the samples: a larger sample never
    gets a smaller bin label, a sample with a smaller label is the smaller
    sample, and two samples with the same label differ by less than
    200 W. *)
Theorem bin_respects_order (x y : Q) :
  (x <= y -> (bin x <= bin y)%Z)
  /\ ((bin x < bin y)%Z -> x < y)
  /\ (bin x = bin y -> x - y < 200).
Proof.
  assert (Hmono : forall a b, a <= b -> (bin a <= bin b)%Z).
  { intros a b H. unfold bin, size_bins.
    pose proof (floordiv_monotone a b H). unfold size_bins in *. lia. }
  split; [apply Hmono|]. split.
  - intros Hlt. destruct (Qlt_le_dec x y) as [H|H]; [exact H|].
    specialize (Hmono y x H). lia.
  - intros E. destruct (bin_bounds x) as [_ Hx].
    destruct (bin_bounds y) as [Hy _]. rewrite E in Hx.
    apply (Qplus_lt_l _ _ y).
    setoid_replace (x - y + y) with x by ring.
    eapply Qlt_le_trans; [exact Hx|].
    rewrite (Qplus_comm 200 y). apply Qplus_le_compat;
      [exact Hy | apply Qle_refl].
Qed.

Lemma bin_respects_order_witness :
  (bin 150 <= bin 250)%Z /\ 350 - 250 < 200.
Proof.
  split.
  - apply (proj1 (bin_respects_order 150 250)). discriminate.
  - apply (proj2 (proj2 (bin_respects_order 350 250))). reflexivity.
Defined.

(** ** Errors and counts of the load duration table *)



(** X13: before the division of line 106, a cell of the merged table is
    the number of the house's samples in that bin, and every column adds up
    to the number of time steps of the Panel: all houses are divided by the
    same total. *)
Theorem load_duration_counts
    (p : Panel) (kP : nat) (tbl : Frame Z Q) (i : nat) :
  wf_panel p = true ->
  get_loc "Power" (minor_axis p) = Ok kP ->
  NoDup (items p) ->
  load_duration p = Ok tbl ->
  (i < length (items p))%nat ->
  length (nth i (cols tbl) []) = length (index tbl)
  /\ (forall j, (j < length (index tbl))%nat ->
        nth j (nth i (cols tbl) []) 0
        = inject_Z (Z.of_nat (count_in_bin (nth j (index tbl) 0%Z)
                                (series_of p i kP))))
  /\ Qsum (nth i (cols tbl) [])
     == inject_Z (Z.of_nat (length (major_axis p))).
Proof.
  intros Hwf Hk Hnd H Hi.
  destruct (load_duration_eq p kP Hk (load_duration_items p tbl H))
    as [ix [Hsorted [Hix Heq]]].
  rewrite Heq in H. inversion H; subst tbl; clear H. cbn [index cols].
  set (col := fun n : string =>
                map (fun k => inject_Z (Z.of_nat
                       (count_in_bin k (series_of p (item_loc p n) kP)))) ix).
  rewrite (nth_indep _ [] (col EmptyString)) by (rewrite length_map; exact Hi).
  rewrite (map_nth col). unfold col. rewrite (item_loc_nth p i Hnd Hi).
  split; [apply length_map|]. split.
  - intros j Hj.
    set (cell := fun k => inject_Z (Z.of_nat
                            (count_in_bin k (series_of p i kP)))).
    rewrite (nth_indep _ 0 (cell 0%Z)) by (rewrite length_map; exact Hj).
    apply (map_nth cell).
  - rewrite Qsum_of_nats, counts_total.
    + rewrite (series_of_length p i kP Hwf Hi). reflexivity.
    + apply StronglySorted_lt_NoDup, Hsorted.
    + intros x Hx. apply Hix. exists (nth i (items p) EmptyString).
      split; [apply nth_In, Hi|].
      rewrite (item_loc_nth p i Hnd Hi). apply in_map, Hx.
Qed.

Lemma load_duration_counts_witness :
  exists tbl,
    load_duration Sample.pnl_load = Ok tbl
    /\ Qsum (nth 1 (cols tbl) []) == 3.
Proof.
  eexists. split; [reflexivity|].
  apply (load_duration_counts Sample.pnl_load 0 _ 1 eq_refl eq_refl);
    [| reflexivity | simpl; lia].
  repeat constructor; simpl; intuition discriminate.
Defined.

(** ** From the files to the Panel *)

Lemma mapM_Forall2 {A B : Type} (f : A -> result B) (l : list A)
    (bs : list B) :
  mapM f l = Ok bs -> Forall2 (fun a b => f a = Ok b) l bs.
Proof.
  revert bs; induction l as [|a l IH]; simpl; intros bs H.
  - inversion H. constructor.
  - destruct (f a) as [b|e] eqn:Ea; simpl in H; [|discriminate].
    destruct (mapM f l) as [bs'|e]; simpl in H; [|discriminate].
    inversion H; subst. constructor; auto.
Qed.

Lemma Forall2_nth_error {A B : Type} (R : A -> B -> Prop) (l : list A)
    (l' : list B) (i : nat) (a : A) :
  Forall2 R l l' -> nth_error l i = Some a ->
  exists b, nth_error l' i = Some b /\ R a b.
Proof.
  intros H. revert i. induction H as [|x y l l' Hxy _ IH]; intros i Hi.
  - destruct i; discriminate.
  - destruct i as [|i]; simpl in *.
    + inversion Hi; subst. eauto.
    + apply IH, Hi.
Qed.

Lemma Forall2_in_l {A B : Type} (R : A -> B -> Prop) (l : list A)
    (l' : list B) (a : A) :
  Forall2 R l l' -> In a l -> exists b, In b l' /\ R a b.
Proof.
  induction 1 as [|x y l l' Hxy _ IH]; intros Hin; [contradiction|].
  destruct Hin as [<-|Hin].
  - exists y. split; [left; reflexivity | exact Hxy].
  - destruct (IH Hin) as [b [Hb Hr]]. exists b. split; [right|]; assumption.
Qed.

Lemma parse_all_length (parse_ts : string -> option Z) (fields : list string)
    (vs : list Z) :
  parse_all parse_ts fields = Some vs ->
  length vs = length fields /\ map Some vs = map parse_ts fields.
Proof.
  revert vs. induction fields as [|f r IH]; simpl; intros vs H.
  - inversion H. split; reflexivity.
  - destruct (parse_ts f) as [v|]; [|discriminate].
    destruct (parse_all parse_ts r) as [vs'|]; [|discriminate].
    inversion H; subst. destruct (IH vs' eq_refl) as [H1 H2].
    simpl. split; congruence.
Qed.

Lemma parse_all_some (parse_ts : string -> option Z) (fields : list string) :
  (forall f, In f fields -> parse_ts f <> None) ->
  exists vs, parse_all parse_ts fields = Some vs.
Proof.
  induction fields as [|f r IH]; simpl; intros H; [eauto|].
  destruct (parse_ts f) as [v|] eqn:E;
    [|exfalso; apply (H f); auto].
  destruct IH as [vs ->]; [intros; apply H; auto|]. eauto.
Qed.

(** X14: [read_csv] converts the index column as a whole: the index has one
    label per row, all of them time stamps (the parsed fields, in order)
    when every first field is a date, and all of them the text as read as
    soon as one field is not; it is never a mixture. *)
Theorem parse_index_all_or_nothing
    (parse_ts : string -> option Z) (fields : list string) :
  length (parse_index parse_ts fields) = length fields
  /\ ((forall f, In f fields -> parse_ts f <> None) ->
      exists vs, parse_index parse_ts fields = map Timestamp vs
                 /\ map Some vs = map parse_ts fields)
  /\ ((exists f, In f fields /\ parse_ts f = None) ->
      parse_index parse_ts fields = map Text fields).
Proof.
  unfold parse_index. split; [|split].
  - destruct (parse_all parse_ts fields) as [vs|] eqn:E.
    + rewrite length_map. apply (parse_all_length _ _ _ E).
    + apply length_map.
  - intros Hall. destruct (parse_all_some parse_ts fields Hall) as [vs E].
    rewrite E. exists vs. split; [reflexivity|].
    apply (parse_all_length _ _ _ E).
  - intros Hbad. rewrite (parse_all_none parse_ts fields Hbad). reflexivity.
Qed.

Lemma parse_index_all_or_nothing_witness :
  parse_index Sample.parse_one ["yesterday"; "2014-01-01 00:00:00"]%string
  = [Text "yesterday"; Text "2014-01-01 00:00:00"].
Proof.
  apply (proj2 (proj2 (parse_index_all_or_nothing Sample.parse_one
                         ["yesterday"; "2014-01-01 00:00:00"]%string))).
  exists "yesterday"%string. split; [left; reflexivity | reflexivity].
Defined.

Lemma build_panel_inv (frames : list DataFrame) (names : list string)
    (p : Panel) :
  build_panel frames names = Ok p ->
  exists d0 rest,
    frames = d0 :: rest
    /\ p = mkPanel names (index d0) (columns d0)
             (map data (map values frames))
    /\ length names = length frames
    /\ forall d, In d frames ->
         length (index d) = length (index d0)
         /\ length (columns d) = length (columns d0).
Proof.
  intros H. destruct frames as [|d0 rest]; [discriminate|].
  exists d0, rest. split; [reflexivity|].
  unfold build_panel, pd_Panel in H. cbn [map] in H.
  destruct (forallb (same_shape (values d0)) (map values rest)) eqn:Hs;
    [|discriminate].
  match type of H with (if ?c then _ else _) = _ => destruct c eqn:Hc end;
    [|discriminate].
  inversion H; subst p; clear H.
  apply andb_true_iff in Hc as [Hc _]. apply andb_true_iff in Hc as [Hc _].
  apply Nat.eqb_eq in Hc. split; [reflexivity|]. split.
  - rewrite <- Hc. cbn [length]. rewrite length_map. reflexivity.
  - intros d [<-|Hd]; [split; reflexivity|].
    rewrite forallb_forall in Hs.
    specialize (Hs (values d) (in_map values _ _ Hd)).
    unfold same_shape in Hs. cbn [values shape fst snd] in Hs.
    apply andb_true_iff in Hs as [H1 H2].
    apply Nat.eqb_eq in H1, H2. split; congruence.
Qed.

Lemma read_csv_inv (parse_ts : string -> option Z) (fs : filesystem)
    (x : string) (d : DataFrame) :
  read_csv parse_ts fs x = Ok d ->
  exists c, open_csv fs x = Some c
            /\ d = mkFrame (parse_index parse_ts (map fst (rows c))) (header c)
                     (map (fun j => map (fun r => nth j (snd r) 0) (rows c))
                        (seq 0 (length (header c)))).
Proof.
  unfold read_csv. destruct (open_csv fs x) as [c|]; [|discriminate].
  intros H. inversion H. eauto.
Qed.

Lemma parse_index_length (parse_ts : string -> option Z)
    (fields : list string) :
  length (parse_index parse_ts fields) = length fields.
Proof.
  unfold parse_index.
  destruct (parse_all parse_ts fields) as [vs|] eqn:E.
  - rewrite length_map. apply (parse_all_length _ _ _ E).
  - apply length_map.
Qed.

Lemma nth_map_seq {A : Type} (f : nat -> A) (n t : nat) (d : A) :
  (t < n)%nat -> nth t (map f (seq 0 n)) d = f t.
Proof.
  intros H. rewrite (nth_indep _ d (f O)) by (rewrite length_map, length_seq; exact H).
  rewrite (map_nth f), seq_nth by exact H. reflexivity.
Qed.

(** The cells of the array of a table read from a file. *)
Lemma values_of_csv (parse_ts : string -> option Z) (c : csv) (t j : nat) :
  (t < length (rows c))%nat -> (j < length (header c))%nat ->
  nth j (nth t (data (values
           (mkFrame (parse_index parse_ts (map fst (rows c))) (header c)
              (map (fun j => map (fun r => nth j (snd r) 0) (rows c))
                 (seq 0 (length (header c))))))) []) 0
  = nth j (snd (nth t (rows c) (EmptyString, []))) 0.
Proof.
  intros Ht Hj. unfold values. cbn [data index cols].
  rewrite parse_index_length.
  rewrite length_map.
  rewrite (nth_map_seq _ _ t [] Ht).
  set (colf := fun j => map (fun r : string * list Q => nth j (snd r) 0)
                          (rows c)).
  rewrite (nth_indep _ 0 ((fun col => nth t col 0) (colf O)))
    by (rewrite !length_map, length_seq; exact Hj).
  rewrite (map_nth (fun col => nth t col 0)).
  rewrite (nth_map_seq colf _ j (colf O) Hj). unfold colf.
  set (cellf := fun r : string * list Q => nth j (snd r) 0).
  rewrite (nth_indep _ 0 (cellf (EmptyString, [])))
    by (rewrite length_map; exact Ht).
  apply (map_nth cellf).
Qed.

Lemma pnl_inv (parse_ts : string -> option Z) (fs : filesystem)
    (dir_path : string) (p : Panel) :
  pnl parse_ts fs dir_path = Ok p ->
  exists frames,
    Forall2 (fun x d => read_csv parse_ts fs x = Ok d)
      (file_names fs dir_path) frames
    /\ build_panel frames (house_names fs dir_path) = Ok p.
Proof.
  unfold pnl. intros H. apply bind_ok in H as [frames [Hf Hb]].
  exists frames. split; [apply mapM_Forall2, Hf | exact Hb].
Qed.

(** X15: the Panel holds the numbers of the files where one expects them:
    its cell for the i-th listed file, row t and column j is the j-th
    number of row t of that file. *)
Theorem panel_cell_is_csv_field
    (parse_ts : string -> option Z) (fs : filesystem) (dir_path : string)
    (p : Panel) (i : nat) (name : string) (c : csv) (t j : nat) :
  pnl parse_ts fs dir_path = Ok p ->
  nth_error (listdir fs) i = Some name ->
  open_csv fs (Path.os_path_join dir_path name) = Some c ->
  (t < length (rows c))%nat ->
  (j < length (header c))%nat ->
  nth j (nth t (nth i (pvalues p) []) []) 0
  = nth j (snd (nth t (rows c) (EmptyString, []))) 0.
Proof.
  intros H Hname Hc Ht Hj.
  destruct (pnl_inv _ _ _ _ H) as [frames [Hf Hb]].
  destruct (build_panel_inv _ _ _ Hb) as [d0 [rest [_ [-> _]]]].
  cbn [pvalues].
  assert (Hpath : nth_error (file_names fs dir_path) i
                  = Some (Path.os_path_join dir_path name))
    by (unfold file_names; apply map_nth_error, Hname).
  destruct (Forall2_nth_error _ _ _ _ _ Hf Hpath) as [d [Hd Hread]].
  destruct (read_csv_inv _ _ _ _ Hread) as [c' [Hc' ->]].
  rewrite Hc in Hc'. inversion Hc'; subst c'.
  rewrite map_map.
  rewrite (nth_error_nth _ _ _
             (map_nth_error (fun x => data (values x)) _ _ Hd)).
  apply values_of_csv; assumption.
Qed.

Lemma panel_cell_is_csv_field_witness :
  exists p,
    pnl Sample.parse_two Sample.fs_one "raw_data" = Ok p
    /\ nth 0 (nth 1 (nth 0 (pvalues p) []) []) 0 = 250.
Proof.
  eexists. split; [reflexivity|].
  apply (panel_cell_is_csv_field Sample.parse_two Sample.fs_one "raw_data"
           _ 0 "house1.csv"
           (mkCsv ["Power"; "Vrms"]%string
              [("2014-01-01 00:00:00"%string, [100%Q; 230%Q]);
               ("2014-01-01 00:02:00"%string, [250%Q; 231%Q])])
           1 0 eq_refl eq_refl eq_refl); simpl; lia.
Defined.

(** X16: a Panel is built only from a non-empty directory of files that all
    have the same numbers of rows and columns; it is well formed, has one
    item per listed file, named after the files in listing order, and takes
    its time index and its variable names from the first listed file. *)
Theorem built_panel_layout
    (parse_ts : string -> option Z) (fs : filesystem) (dir_path : string)
    (p : Panel) :
  pnl parse_ts fs dir_path = Ok p ->
  wf_panel p = true
  /\ items p = map house_name (map (Path.os_path_join dir_path) (listdir fs))
  /\ length (items p) = length (listdir fs)
  /\ exists name0 rest c0,
       listdir fs = name0 :: rest
       /\ open_csv fs (Path.os_path_join dir_path name0) = Some c0
       /\ minor_axis p = header c0
       /\ major_axis p = parse_index parse_ts (map fst (rows c0))
       /\ forall name, In name (listdir fs) ->
            exists c, open_csv fs (Path.os_path_join dir_path name) = Some c
                      /\ length (rows c) = length (rows c0)
                      /\ length (header c) = length (header c0).
Proof.
  intros H. split; [apply (pnl_wf _ _ _ _ H)|].
  destruct (pnl_inv _ _ _ _ H) as [frames [Hf Hb]].
  destruct (build_panel_inv _ _ _ Hb) as [d0 [rest0 [-> [-> [Hlen Hshape]]]]].
  cbn [items minor_axis major_axis].
  split; [reflexivity|].
  split; [unfold house_names, file_names; rewrite !length_map; reflexivity|].
  unfold file_names in Hf.
  destruct (listdir fs) as [|name0 rest] eqn:El; [inversion Hf|].
  cbn [map] in Hf. inversion Hf as [|x y l l' Hread0 Hrest]; subst.
  destruct (read_csv_inv _ _ _ _ Hread0) as [c0 [Hc0 ->]].
  exists name0, rest, c0. split; [reflexivity|]. split; [exact Hc0|].
  cbn [columns index]. split; [reflexivity|]. split; [reflexivity|].
  intros name Hin.
  destruct (Forall2_in_l _ _ _ (Path.os_path_join dir_path name) Hf)
    as [d [Hd Hread]].
  { change (In (Path.os_path_join dir_path name)
              (map (Path.os_path_join dir_path) (name0 :: rest))).
    apply in_map, Hin. }
  destruct (read_csv_inv _ _ _ _ Hread) as [c [Hc ->]].
  exists c. split; [exact Hc|].
  destruct (Hshape _ Hd) as [H1 H2]. cbn [index columns] in H1, H2.
  rewrite !parse_index_length, !length_map in H1. auto.
Qed.

Lemma built_panel_layout_witness :
  exists p,
    pnl Sample.parse_two Sample.fs_one "raw_data" = Ok p
    /\ wf_panel p = true
    /\ length (items p) = 1%nat.
Proof.
  eexists. split; [reflexivity|].
  destruct (built_panel_layout Sample.parse_two Sample.fs_one "raw_data" _
              eq_refl) as [H1 [_ [H2 _]]].
  split; [exact H1 | exact H2].
Defined.

(** ** The outcome of a run *)




(** ** Laws of slice assignment *)






(** ** One house of a slice *)

(** X19: [pnl.ix[n, :, v]] for the i-th house is the i-th column of
    [pnl.ix[:, :, v]] laid on the time axis; for a name that is not an item
    it raises [KeyError]. *)
Theorem item_series_is_slice_column
    (p : Panel) (v : string) (f : DataFrame) (i : nat) :
  NoDup (items p) ->
  ix_minor p v = Ok f ->
  (i < length (items p))%nat ->
  ix_item_minor p (nth i (items p) EmptyString) v
  = Ok (mkSeries v (major_axis p) (nth i (cols f) []))
  /\ forall n, ~ In n (items p) -> ix_item_minor p n v = Raise KeyError.
Proof.
  intros Hnd Hf Hi. unfold ix_minor in Hf. unfold ix_item_minor.
  destruct (get_loc v (minor_axis p)) as [k|e] eqn:Ek; [|discriminate].
  cbn [bind] in Hf. inversion Hf; subst f; clear Hf. cbn [cols]. split.
  - rewrite (get_loc_nth _ _ _ Hnd Hi). cbn [bind]. do 2 f_equal.
    symmetry.
    exact (map_nth (fun m => map (fun r => nth k r 0) m) (pvalues p) [] i).
  - intros n Hn. rewrite (get_loc_not_in _ _ Hn). reflexivity.
Qed.

Lemma item_series_is_slice_column_witness :
  ix_item_minor Sample.pnl0 "house2" "Power"
  = Ok (mkSeries "Power" (major_axis Sample.pnl0) [100; 100; 100]).
Proof.
  assert (Hnd : NoDup (items Sample.pnl0)).
  { repeat constructor; simpl; intuition discriminate. }
  apply (proj1 (item_series_is_slice_column Sample.pnl0 "Power" _ 1 Hnd
                  eq_refl ltac:(simpl; lia))).
Defined.

(** ** Round trips of the string functions *)

Section StringRoundTrips.
Local Open Scope string_scope.
Import Path.

Lemma prefix_split (s1 s2 : string) :
  prefix s1 s2 = true -> exists s', s2 = s1 ++ s'.
Proof.
  revert s2. induction s1 as [|c s1 IH]; intros s2 H.
  - exists s2. reflexivity.
  - destruct s2 as [|a s2]; cbn [prefix] in H; [discriminate|].
    destruct (ascii_dec c a) as [->|]; [|discriminate].
    destruct (IH s2 H) as [s' ->]. exists s'. reflexivity.
Qed.

Lemma split_go_skip (sep t s cur : string) :
  split_go sep (String.length t) cur (t ++ s) = split_go sep 0 cur s.
Proof.
  induction t as [|a t IH]; [reflexivity|]. exact IH.
Qed.

Lemma split_go_pieces (sep : string) (skip : nat) (cur s : string) :
  split_go sep skip cur s <> [].
Proof.
  revert skip cur. induction s as [|a r IH]; intros skip cur;
    cbn [split_go]; [discriminate|].
  destruct skip; [|apply IH].
  destruct (prefix sep (String a r)); [discriminate | apply IH].
Qed.

Lemma join_cons (sep x : string) (rest : list string) :
  rest <> [] -> str_join sep (x :: rest) = x ++ sep ++ str_join sep rest.
Proof. destruct rest; [contradiction | reflexivity]. Qed.

Lemma join_split_go (c : ascii) (sep' : string) (n : nat) :
  forall s cur, (String.length s <= n)%nat ->
    str_join (String c sep') (split_go (String c sep') 0 cur s) = cur ++ s.
Proof.
  induction n as [|n IH]; intros s cur Hlen.
  - destruct s; [|simpl in Hlen; lia]. simpl. symmetry. apply append_empty_r.
  - destruct s as [|a r]; [simpl; symmetry; apply append_empty_r|].
    cbn [split_go].
    destruct (prefix (String c sep') (String a r)) eqn:Ep.
    + destruct (prefix_split _ _ Ep) as [s' Hs'].
      cbn [append] in Hs'. inversion Hs'; subst a r.
      replace (String.length (String c sep') - 1)%nat
        with (String.length sep') by (simpl; lia).
      rewrite split_go_skip.
      rewrite join_cons by apply split_go_pieces.
      rewrite IH.
      * reflexivity.
      * simpl in Hlen. rewrite length_append in Hlen. lia.
    + rewrite IH by (simpl in Hlen; lia).
      rewrite append_assoc. reflexivity.
Qed.

(** X20: splitting at a non-empty separator loses nothing: joining the
    pieces of [s.split(sep)] with [sep] gives [s] back, and there is always
    at least one piece. *)
Theorem join_split_round_trip (sep s : string) :
  sep <> "" ->
  str_split sep s <> []
  /\ str_join sep (str_split sep s) = s.
Proof.
  intros Hne. split; [apply split_go_pieces|].
  destruct sep as [|c sep']; [contradiction|].
  apply (join_split_go c sep' (String.length s) s "" (Nat.le_refl _)).
Qed.

Lemma join_split_round_trip_witness :
  str_join ".csv" (str_split ".csv" "my.csv.data.csv") = "my.csv.data.csv".
Proof.
  apply (join_split_round_trip ".csv" "my.csv.data.csv"). discriminate.
Defined.

Lemma take_append (a b : string) : take (String.length a) (a ++ b) = a.
Proof. induction a as [|x a IH]; simpl; [destruct b|rewrite IH]; reflexivity. Qed.

Lemma all_char_app_no_end (c : ascii) (a : string) :
  a <> "" -> endswith_char c a = false ->
  all_char c (a ++ String c "") = false
  /\ rstrip c (a ++ String c "") = a.
Proof.
  induction a as [|x r IH]; intros Hne He; [contradiction|].
  destruct r as [|y r'].
  - cbn [endswith_char] in He. cbn [append all_char rstrip].
    rewrite He, Ascii.eqb_refl. cbn [andb]. split; reflexivity.
  - change (endswith_char c (String x (String y r')))
      with (endswith_char c (String y r')) in He.
    destruct (IH ltac:(discriminate) He) as [H1 H2].
    change (String x (String y r') ++ String c "")
      with (String x (String y r' ++ String c "")).
    cbn [all_char rstrip]. rewrite H1, H2.
    rewrite andb_false_r. split; reflexivity.
Qed.

(** X21: splitting a joined path gives the two parts back: for a directory
    path that is not empty and does not end in a slash and a file name
    without a slash, [os.path.split(os.path.join(dir, name))] is
    [(dir, name)]. *)
Theorem path_split_join_round_trip (dir name : string) :
  dir <> "" ->
  endswith_char "/" dir = false ->
  contains "/" name = false ->
  os_path_split (os_path_join dir name) = (dir, name).
Proof.
  intros Hne He Hn.
  assert (Hjoin : os_path_join dir name = (dir ++ String "/" "") ++ name).
  { unfold os_path_join. rewrite (startswith_slash _ Hn), He.
    destruct (String.eqb_spec dir ""); [contradiction|].
    rewrite append_assoc. reflexivity. }
  pose proof (tail_of_join dir name Hn) as Htail.
  unfold os_path_split in *. cbn [snd] in Htail. rewrite Htail.
  f_equal. rewrite Hjoin.
  replace (Z.to_nat (rfind "/" ((dir ++ String "/" "") ++ name) + 1))
    with (String.length (dir ++ String "/" "")).
  - rewrite take_append.
    destruct (all_char_app_no_end "/" dir Hne He) as [H1 H2].
    rewrite H1, H2.
    destruct (String.eqb_spec (dir ++ String "/" "") "") as [E|E];
      [|reflexivity].
    destruct dir; discriminate.
  - rewrite append_assoc. cbn [append].
    rewrite (rfind_last _ dir _ Hn), length_append. simpl. lia.
Qed.

Lemma path_split_join_round_trip_witness :
  os_path_split (os_path_join "/home/u/raw_data" "house1.csv")
  = ("/home/u/raw_data", "house1.csv").
Proof.
  apply path_split_join_round_trip; [discriminate | reflexivity..].
Defined.

End StringRoundTrips.
